(** * Merge-and-overwrite upsert: [update_and_load_to_aurora]

    A shallow embedding of [write_upsert_aws_in_pyspark.py].  The function
    joins the incoming batch with the persisted data on the primary key,
    sorts the joined rows into three buckets (new, updated, unchanged),
    unions the buckets and overwrites the destination table.

    The dataframe operations the function calls (full outer join on a list
    of column names, [filter] with SQL three-valued conditions, [select],
    [unionByName], the JDBC writer in overwrite mode) are embedded as plain
    list functions with the semantics Spark gives them. *)

From stdpp Require Import base option list strings gmap fin_maps.
From Stdlib Require Import ZArith.

Open Scope string_scope.

(** ** Data model *)

(** A cell value.  Both frames are taken to give a column the same type, so
    equality of two non-NULL cells of one column is equality of values. *)
Inductive value :=
  | VInt (n : Z)
  | VStr (s : string).

#[global] Instance value_eq_dec : EqDecision value.
Proof. solve_decision. Defined.

(** A row maps column names to values; a column of the schema that the map
    does not bind holds SQL NULL.  So [r !! c : option value] is the cell,
    with [None] for NULL. *)
Abbreviation Row := (gmap string value).

(** A dataframe: the schema's column names and a bag of rows.  Both are
    lists here; the engine promises no order of the rows of a join and
    moves the key columns of a join on names, so results are compared up to
    the order of rows and of columns. *)
Record DataFrame := mkDF {
  columns : list string;
  rows : list Row
}.

(** The exceptions the function can raise. *)
Inductive Exn :=
  | IndexError                 (* [primary_keys[0]] on an empty list *)
  | AnalysisException          (* a column that does not resolve, a union of different schemas *)
  | KeyError (k : string)      (* [aurora_properties[k]] on a missing entry *)
  | JdbcError.                 (* the destination refuses the connection or the write *)

Definition result (A : Type) : Type := Exn + A.

#[global] Instance result_ret : MRet result := λ A a, inr a.
#[global] Instance result_bind : MBind result := λ A B f m,
  match m with
  | inl e => inl e
  | inr a => f a
  end.

Definition raise {A} (e : Exn) : result A := inl e.

(** ** SQL three-valued logic

    [None] is the unknown truth value (NULL). *)

Definition sql_eq (a b : option value) : option bool :=
  match a, b with
  | Some x, Some y => Some (bool_decide (x = y))
  | _, _ => None
  end.

(** [a != b] on columns *)
Definition sql_ne (a b : option value) : option bool :=
  match a, b with
  | Some x, Some y => Some (bool_decide (x ≠ y))
  | _, _ => None
  end.

(** [p | q] *)
Definition sql_or (p q : option bool) : option bool :=
  match p, q with
  | Some true, _ | _, Some true => Some true
  | Some false, Some false => Some false
  | _, _ => None
  end.

(** [p & q] *)
Definition sql_and (p q : option bool) : option bool :=
  match p, q with
  | Some false, _ | _, Some false => Some false
  | Some true, Some true => Some true
  | _, _ => None
  end.

(** [~p] *)
Definition sql_not (p : option bool) : option bool := negb <$> p.

Definition isNotNull (a : option value) : option bool :=
  Some (bool_decide (is_Some a)).

Definition isNull (a : option value) : option bool :=
  Some (bool_decide (a = None)).

(** ** Dataframe operations *)

(** The frame a join produces.  Each joined row keeps its [nd] half and its
    [cd] half; the half of a side that has no partner is the all-NULL row.
    (The coalesced key columns the join also outputs are never referenced by
    the function and are left out.) *)
Record JoinedFrame := mkJoined {
  nd_columns : list string;
  cd_columns : list string;
  pairs : list (Row * Row)
}.

(** The join condition of a join on column names: every named column is
    equal on the two sides, in the SQL sense (a NULL key matches nothing). *)
Definition using_match (on : list string) (n c : Row) : Prop :=
  Forall (λ k, sql_eq (n !! k) (c !! k) = Some true) on.

#[global] Instance using_match_dec on n c : Decision (using_match on n c).
Proof. unfold using_match. apply _. Defined.

(** The rows of the left side, each with its partners or padded with NULLs. *)
Definition left_pairs (on : list string) (cd_rows : list Row) (n : Row)
  : list (Row * Row) :=
  match filter (using_match on n) cd_rows with
  | [] => [(n, ∅)]
  | ms => (λ c, (n, c)) <$> ms
  end.

(** The rows of the right side without a partner, padded with NULLs. *)
Definition right_only (on : list string) (nd_rows cd_rows : list Row)
  : list (Row * Row) :=
  (λ c, (∅, c)) <$>
    filter (λ c, Forall (λ n, ¬ using_match on n c) nd_rows) cd_rows.

(** [nd.join(cd, on=..., how="fullouter")]: the named columns must exist on
    both sides.  (With no name at all every pair of rows would be partners;
    the function never gets that far, it indexes [primary_keys[0]] in its
    next statement.) *)
Definition join_fullouter (nd cd : DataFrame) (on : list string)
  : result JoinedFrame :=
  if decide (on ⊆ columns nd ∧ on ⊆ columns cd) then
    mret {| nd_columns := columns nd;
            cd_columns := columns cd;
            pairs := ((rows nd ≫= left_pairs on (rows cd))
                      ++ right_only on (rows nd) (rows cd))%list |}
  else raise AnalysisException.

(** Resolution of a qualified column name against one side of the join. *)
Definition resolve (cols : list string) (c : string) : result unit :=
  if decide (c ∈ cols) then mret () else raise AnalysisException.

(** [filter]: keeps the rows on which the condition is true; rows on which it
    is false or unknown go. *)
Definition sql_filter {A} (cond : A → option bool) (l : list A) : list A :=
  filter (λ j, cond j = Some true) l.

(** The cells of a row under the listed columns, and nothing else. *)
Definition project (cols : list string) (r : Row) : Row :=
  filter (λ kv, kv.1 ∈ cols) r.

(** [l.unionByName(r)]: columns are paired by name, so the two schemas must
    hold the same names, each once; the result has the left schema. *)
Definition unionByName (l r : DataFrame) : result DataFrame :=
  if decide (NoDup (columns l) ∧ NoDup (columns r) ∧
             columns l ⊆ columns r ∧ columns r ⊆ columns l)
  then mret {| columns := columns l; rows := (rows l ++ rows r)%list |}
  else raise AnalysisException.

(** [primary_keys[0]] *)
Definition first_key (primary_keys : list string) : result string :=
  match primary_keys with
  | [] => raise IndexError
  | pk :: _ => mret pk
  end.

(** ** The function body, statement by statement *)

Definition resolve_all (cols : list string) (cs : list string) : result unit :=
  if decide (cs ⊆ cols) then mret () else raise AnalysisException.

(** [joined_df = new_data.alias("nd").join(current_data.alias("cd"),
                                            on=primary_keys, how="fullouter")] *)
Definition joined_df (current_data new_data : DataFrame)
    (primary_keys : list string) : result JoinedFrame :=
  join_fullouter new_data current_data primary_keys.

(** [(col("nd.value_col") != col("cd.value_col")) |
     (col("nd.another_col") != col("cd.another_col"))] *)
Definition changed (j : Row * Row) : option bool :=
  sql_or (sql_ne (j.1 !! "value_col") (j.2 !! "value_col"))
         (sql_ne (j.1 !! "another_col") (j.2 !! "another_col")).

(** [col("nd." + primary_keys[0]).isNotNull() &
     col("cd." + primary_keys[0]).isNotNull()] *)
Definition both_sides (pk0 : string) (j : Row * Row) : option bool :=
  sql_and (isNotNull (j.1 !! pk0)) (isNotNull (j.2 !! pk0)).

Definition updated_cond (pk0 : string) (j : Row * Row) : option bool :=
  sql_and (both_sides pk0 j) (changed j).

Definition new_cond (pk0 : string) (j : Row * Row) : option bool :=
  isNull (j.2 !! pk0).

Definition unchanged_cond (pk0 : string) (j : Row * Row) : option bool :=
  sql_and (both_sides pk0 j) (sql_not (changed j)).

(** The columns the condition on the compared columns refers to. *)
Definition resolve_compared (j : JoinedFrame) (pk0 : string) : result unit :=
  resolve (nd_columns j) pk0;;
  resolve (cd_columns j) pk0;;
  resolve (nd_columns j) "value_col";;
  resolve (cd_columns j) "value_col";;
  resolve (nd_columns j) "another_col";;
  resolve (cd_columns j) "another_col".

(** [updated_rows = joined_df.filter(...).select(
       [col(f"nd.{pk}") for pk in primary_keys] +
       [col(f"nd.{c}") for c in new_data.columns if c not in primary_keys])] *)
Definition updated_rows (joined : JoinedFrame) (new_data : DataFrame)
    (primary_keys : list string) : result DataFrame :=
  pk0 ← first_key primary_keys;
  resolve_compared joined pk0;;
  let sel := (primary_keys
              ++ filter (λ c, c ∉ primary_keys) (columns new_data))%list in
  resolve_all (nd_columns joined) sel;;
  mret {| columns := sel;
          rows := (λ j, project sel j.1)
                    <$> sql_filter (updated_cond pk0) (pairs joined) |}.

(** [new_rows = joined_df.filter(col("cd." + primary_keys[0]).isNull())
                         .select("nd.*")] *)
Definition new_rows (joined : JoinedFrame) (primary_keys : list string)
  : result DataFrame :=
  pk0 ← first_key primary_keys;
  resolve (cd_columns joined) pk0;;
  mret {| columns := nd_columns joined;
          rows := (λ j, project (nd_columns joined) j.1)
                    <$> sql_filter (new_cond pk0) (pairs joined) |}.

(** [unchanged_rows = joined_df.filter(...).select("cd.*")] *)
Definition unchanged_rows (joined : JoinedFrame) (primary_keys : list string)
  : result DataFrame :=
  pk0 ← first_key primary_keys;
  resolve_compared joined pk0;;
  mret {| columns := cd_columns joined;
          rows := (λ j, project (cd_columns joined) j.2)
                    <$> sql_filter (unchanged_cond pk0) (pairs joined) |}.

(** The three buckets, computed in the order of the source. *)
Record Buckets := mkBuckets {
  b_updated : DataFrame;
  b_new : DataFrame;
  b_unchanged : DataFrame
}.

Definition buckets (current_data new_data : DataFrame)
    (primary_keys : list string) : result Buckets :=
  joined ← joined_df current_data new_data primary_keys;
  u ← updated_rows joined new_data primary_keys;
  n ← new_rows joined primary_keys;
  k ← unchanged_rows joined primary_keys;
  mret (mkBuckets u n k).

(** [final_df = new_rows.unionByName(updated_rows).unionByName(unchanged_rows)] *)
Definition final_df (current_data new_data : DataFrame)
    (primary_keys : list string) : result DataFrame :=
  b ← buckets current_data new_data primary_keys;
  nu ← unionByName (b_new b) (b_updated b);
  unionByName nu (b_unchanged b).

(** ** The destination and the write *)

(** What the function can see and change outside itself: whether the
    database behind a JDBC URL takes a connection with given credentials and
    driver, the tables behind each URL, and the lines printed so far. *)
Record World := mkWorld {
  jdbc_accepts : string → string → string → string → bool;
  tables : gmap (string * string) DataFrame;
  stdout : list string
}.

(** [aurora_properties[k]] *)
Definition dict_get (d : gmap string string) (k : string) : result string :=
  match d !! k with
  | Some v => mret v
  | None => raise (KeyError k)
  end.

(** [df.write.format("jdbc")...mode("overwrite").save()]: on success the
    table holds the rows of [df] and nothing else.  A refused write is taken
    to leave the destination as it was. *)
Definition jdbc_overwrite (url table user password driver : string)
    (df : DataFrame) (w : World) : result unit * World :=
  if jdbc_accepts w url user password driver then
    (mret (), {| jdbc_accepts := jdbc_accepts w;
                 tables := <[(url, table) := df]> (tables w);
                 stdout := stdout w |})
  else (raise JdbcError, w).

Definition print (line : string) (w : World) : World :=
  {| jdbc_accepts := jdbc_accepts w;
     tables := tables w;
     stdout := (stdout w ++ [line])%list |}.

(** The whole function.  The [spark] argument is not used by the body.  An
    exception leaves the function at the statement that raises it; nothing
    catches it. *)
Definition update_and_load_to_aurora
    (current_data new_data : DataFrame) (primary_keys : list string)
    (aurora_jdbc_url aurora_table_name : string)
    (aurora_properties : gmap string string)
    (w : World) : result unit * World :=
  match
    df ← final_df current_data new_data primary_keys;
    user ← dict_get aurora_properties "user";
    password ← dict_get aurora_properties "password";
    driver ← dict_get aurora_properties "driver";
    mret (df, user, password, driver)
  with
  | inl e => (inl e, w)
  | inr (df, user, password, driver) =>
      match jdbc_overwrite aurora_jdbc_url aurora_table_name
                           user password driver df w with
      | (inl e, w') => (inl e, w')
      | (inr _, w') =>
          (mret (),
           print ("Data successfully updated and loaded to Aurora table: "
                    ++ aurora_table_name) w')
      end
  end.

(** ** Keys and well-formed frames *)

(** The cells of a row under the primary-key columns. *)
Definition key_of (primary_keys : list string) (r : Row) : list (option value) :=
  (λ pk, r !! pk) <$> primary_keys.

(** A key is a tuple of (non-NULL) values, one per primary-key column. *)
Definition has_key (primary_keys : list string) (k : list value) (r : Row) : Prop :=
  key_of primary_keys r = Some <$> k.

#[global] Instance has_key_dec pks k r : Decision (has_key pks k r).
Proof. unfold has_key. apply _. Defined.

(** Key [k] is present in a frame: some row of the frame carries it. *)
Definition key_in (primary_keys : list string) (k : list value) (df : DataFrame) : Prop :=
  Exists (has_key primary_keys k) (rows df).

(** The rows of a frame that carry key [k]. *)
Definition rows_of_key (primary_keys : list string) (k : list value)
    (df : DataFrame) : list Row :=
  filter (has_key primary_keys k) (rows df).

(** No two rows of the frame have the same cells under the key columns. *)
Definition unique_keys (primary_keys : list string) (df : DataFrame) : Prop :=
  NoDup (key_of primary_keys <$> rows df).

(** No row of the frame has a NULL in a key column. *)
Definition keys_not_null (primary_keys : list string) (df : DataFrame) : Prop :=
  Forall (λ r : Row, Forall (λ pk, is_Some (r !! pk)) primary_keys) (rows df).

(** The rows of a frame bind columns of its schema only. *)
Definition rows_wf (df : DataFrame) : Prop :=
  Forall (λ r : Row, map_Forall (λ c _, c ∈ columns df) r) (rows df).

#[global] Instance key_in_dec pks k df : Decision (key_in pks k df).
Proof. unfold key_in. apply _. Defined.

#[global] Instance unique_keys_dec pks df : Decision (unique_keys pks df).
Proof. unfold unique_keys. apply _. Defined.

#[global] Instance keys_not_null_dec pks df : Decision (keys_not_null pks df).
Proof. unfold keys_not_null. apply _. Defined.

#[global] Instance rows_wf_dec df : Decision (rows_wf df).
Proof. unfold rows_wf. apply _. Defined.

(** Two cells differ when both hold a value and the values are not the same. *)
Definition differs (a b : option value) : Prop :=
  is_Some a ∧ is_Some b ∧ a ≠ b.

(** Two cells are the same when they hold the same value; NULLs are not. *)
Definition same (a b : option value) : Prop :=
  is_Some a ∧ a = b.

(** A cell of the two compared columns of a pair of rows is NULL. *)
Definition compared_null (n c : Row) : Prop :=
  n !! "value_col" = None ∨ c !! "value_col" = None ∨
  n !! "another_col" = None ∨ c !! "another_col" = None.

(** The joined rows of two frames, as [join_fullouter] lists them. *)
Definition all_pairs (primary_keys : list string) (current_data new_data : DataFrame)
  : list (Row * Row) :=
  ((rows new_data ≫= left_pairs primary_keys (rows current_data))
   ++ right_only primary_keys (rows new_data) (rows current_data))%list.

(** The rows a bucket takes from a list of joined rows: those that pass the
    bucket's filter, projected on one side. *)
Definition bucket_rows (cond : Row * Row → option bool) (f : Row * Row → Row)
    (l : list (Row * Row)) : list Row :=
  f <$> sql_filter cond l.

(** ** Sample frames *)

(** The key column, the two compared columns, and a column that the
    function passes through without comparing it. *)
Definition schema : list string := ["id"; "value_col"; "another_col"; "note"].

Definition cell (c : string) (v : option string) : Row :=
  from_option (λ s, {[c := VStr s]}) ∅ v.

(** A row of [schema]; [None] leaves the cell NULL. *)
Definition sample_row (id : Z) (value_col another_col note : option string) : Row :=
  <["id" := VInt id]>
    (cell "value_col" value_col ∪ cell "another_col" another_col ∪ cell "note" note).

Definition sample_current : DataFrame :=
  mkDF schema [sample_row 1 (Some "a") (Some "x") (Some "old");
               sample_row 2 (Some "b") (Some "x") (Some "old");
               sample_row 4 (Some "d") (Some "y") (Some "old")].

Definition sample_new : DataFrame :=
  mkDF schema [sample_row 2 (Some "B") (Some "x") (Some "new");
               sample_row 3 (Some "c") (Some "x") (Some "new");
               sample_row 4 (Some "d") (Some "y") (Some "new")].

(** What the function computes from the two sample frames. *)
Definition sample_reconciled : DataFrame :=
  mkDF schema [sample_row 3 (Some "c") (Some "x") (Some "new");
               sample_row 2 (Some "B") (Some "x") (Some "new");
               sample_row 4 (Some "d") (Some "y") (Some "old")].

(** One key on both sides, [value_col] NULL on both sides and [another_col]
    the same: nothing changed between the two rows but the passed-through
    note. *)
Definition null_current : DataFrame :=
  mkDF schema [sample_row 1 None (Some "x") (Some "old")].

Definition null_new : DataFrame :=
  mkDF schema [sample_row 1 None (Some "x") (Some "new")].

(** One key on both sides, [value_col] NULL on both sides and [another_col]
    changed. *)
Definition null_changed_current : DataFrame :=
  mkDF schema [sample_row 1 None (Some "x") (Some "old")].

Definition null_changed_new : DataFrame :=
  mkDF schema [sample_row 1 None (Some "y") (Some "new")].

(** The frames of the design document's example: columns [id] and
    [value_col] only. *)
Definition doc_row (id : Z) (value_col : string) : Row :=
  {["id" := VInt id; "value_col" := VStr value_col]}.

Definition doc_current : DataFrame :=
  mkDF ["id"; "value_col"] [doc_row 1 "a"; doc_row 2 "b"].

Definition doc_new : DataFrame :=
  mkDF ["id"; "value_col"] [doc_row 2 "B"; doc_row 3 "c"].

(** The same rows with a cell for [another_col]. *)
Definition with_another (a : option value) (r : Row) : Row :=
  match a with
  | Some v => <["another_col" := v]> r
  | None => r
  end.

Definition doc_schema3 : list string := ["id"; "value_col"; "another_col"].

Definition doc_current3 (a1 a2 : option value) : DataFrame :=
  mkDF doc_schema3 [with_another a1 (doc_row 1 "a"); with_another a2 (doc_row 2 "b")].

Definition doc_new3 (a2 a3 : option value) : DataFrame :=
  mkDF doc_schema3 [with_another a2 (doc_row 2 "B"); with_another a3 (doc_row 3 "c")].

(** A row of [current_data] whose key cell is NULL, and no row in
    [new_data]. *)
Definition null_key_current : DataFrame :=
  mkDF schema [cell "value_col" (Some "a") ∪ cell "another_col" (Some "x")].

Definition empty_new : DataFrame := mkDF schema [].

(** A frame of [schema] without rows. *)
Definition empty_frame : DataFrame := mkDF schema [].

(** The line the function prints after the write. *)
Definition success_line (aurora_table_name : string) : string :=
  "Data successfully updated and loaded to Aurora table: " ++ aurora_table_name.

(** A destination that takes every connection and holds no table yet. *)
Definition open_world : World :=
  {| jdbc_accepts := λ _ _ _ _, true; tables := ∅; stdout := [] |}.

Definition sample_properties : gmap string string :=
  {["user" := "etl"; "password" := "secret"; "driver" := "org.postgresql.Driver"]}.

Definition sample_url : string := "jdbc:postgresql://aurora/db".
Definition sample_table : string := "target".

(** The rows of [new_data] whose key is also in [current_data], and those
    whose key is not. *)
Definition matched_in (primary_keys : list string) (df : DataFrame) (r : Row) : Prop :=
  Exists (using_match primary_keys r) (rows df).

#[global] Instance matched_in_dec pks df r : Decision (matched_in pks df r).
Proof. unfold matched_in. apply _. Defined.

Definition overlap (primary_keys : list string) (current_data new_data : DataFrame)
  : list Row :=
  filter (matched_in primary_keys current_data) (rows new_data).

Definition new_only (primary_keys : list string) (current_data new_data : DataFrame)
  : list Row :=
  filter (λ n, ¬ matched_in primary_keys current_data n) (rows new_data).

(** How many rows the three buckets take from a list of joined rows. *)
Definition tally (pk0 : string) (l : list (Row * Row)) : nat :=
  length (sql_filter (new_cond pk0) l)
  + length (sql_filter (updated_cond pk0) l)
  + length (sql_filter (unchanged_cond pk0) l).

(** No row of the frame has a NULL in one of the two compared columns. *)
Definition compared_not_null (df : DataFrame) : Prop :=
  Forall (λ r : Row, is_Some (r !! "value_col") ∧ is_Some (r !! "another_col"))
         (rows df).

#[global] Instance compared_not_null_dec df : Decision (compared_not_null df).
Proof. unfold compared_not_null. apply _. Defined.

(** Closes a decidable goal about concrete frames by evaluation. *)
Ltac by_compute := apply (bool_decide_unpack _); vm_compute; exact I.

(** ** Three-valued logic: when a condition is true *)

Lemma sql_and_true p q :
  sql_and p q = Some true ↔ p = Some true ∧ q = Some true.
Proof. destruct p as [[]|], q as [[]|]; simpl; intuition congruence. Qed.

Lemma sql_or_true p q :
  sql_or p q = Some true ↔ p = Some true ∨ q = Some true.
Proof. destruct p as [[]|], q as [[]|]; simpl; intuition congruence. Qed.

Lemma sql_or_false p q :
  sql_or p q = Some false ↔ p = Some false ∧ q = Some false.
Proof. destruct p as [[]|], q as [[]|]; simpl; intuition congruence. Qed.

Lemma sql_not_true p : sql_not p = Some true ↔ p = Some false.
Proof. destruct p as [[]|]; simpl; intuition congruence. Qed.

Lemma sql_ne_true a b : sql_ne a b = Some true ↔ differs a b.
Proof.
  unfold differs. destruct a as [x|], b as [y|]; simpl;
    try (split; [done | by intros ([? ?] & [? ?] & ?)]).
  split.
  - intros [= H%bool_decide_eq_true]. repeat split; eauto. congruence.
  - intros (_ & _ & H). f_equal. apply bool_decide_eq_true. congruence.
Qed.

Lemma sql_ne_false a b : sql_ne a b = Some false ↔ same a b.
Proof.
  unfold same. destruct a as [x|], b as [y|]; simpl;
    try (split; [done | by intros ([? ?] & ?)]).
  split.
  - intros [= H%bool_decide_eq_false]. split; [eauto|].
    f_equal. by destruct (decide (x = y)).
  - intros (_ & [= <-]). f_equal. apply bool_decide_eq_false. auto.
Qed.

Lemma sql_eq_true a b :
  sql_eq a b = Some true ↔ ∃ x, a = Some x ∧ b = Some x.
Proof.
  destruct a as [x|], b as [y|]; simpl;
    try (split; [done | intros (? & ? & ?); done]).
  split.
  - intros [= ->%bool_decide_eq_true]. eauto.
  - intros (? & [= <-] & [= <-]). by rewrite bool_decide_eq_true_2.
Qed.

(** ** What a successful run computes *)

Lemma first_key_inr pks pk0 :
  first_key pks = inr pk0 → ∃ rest, pks = pk0 :: rest.
Proof. destruct pks; [done|]. intros [= ->]. eauto. Qed.

Lemma resolve_inr cols c u : resolve cols c = inr u → c ∈ cols.
Proof. unfold resolve. by case_decide. Qed.

Lemma project_ext cols cols' (r : Row) :
  (∀ c, c ∈ cols ↔ c ∈ cols') → project cols r = project cols' r.
Proof. intros H. apply map_filter_ext. intros c v _. apply H. Qed.

Lemma project_lookup cols (r : Row) c :
  c ∈ cols → project cols r !! c = r !! c.
Proof.
  intros Hc. unfold project. apply option_eq. intros v.
  rewrite map_lookup_filter_Some. simpl. tauto.
Qed.

Lemma project_id cols (r : Row) :
  (∀ c, is_Some (r !! c) → c ∈ cols) → project cols r = r.
Proof.
  intros H. apply map_filter_id. intros c v Hv. apply H. by exists v.
Qed.

Lemma project_empty cols : project cols (∅ : Row) = ∅.
Proof. apply map_filter_empty. Qed.

Lemma selected_columns pks (cols : list string) c :
  pks ⊆ cols →
  c ∈ (pks ++ filter (λ c, c ∉ pks) cols)%list ↔ c ∈ cols.
Proof.
  intros Hsub. rewrite elem_of_app, list_elem_of_filter.
  destruct (decide (c ∈ pks)); intuition auto.
Qed.

(** A run that reaches the union has a first key column, finds the key
    columns and the two compared columns on both sides, and returns the
    three buckets one after the other under the schema of [new_data]. *)
Lemma final_df_inr current_data new_data pks R :
  final_df current_data new_data pks = inr R →
  ∃ pk0,
    first_key pks = inr pk0 ∧
    pks ⊆ columns new_data ∧ pks ⊆ columns current_data ∧
    columns R = columns new_data ∧
    rows R =
      (bucket_rows (new_cond pk0) (λ j, project (columns new_data) j.1)
         (all_pairs pks current_data new_data)
       ++ bucket_rows (updated_cond pk0) (λ j, project (columns new_data) j.1)
            (all_pairs pks current_data new_data)
       ++ bucket_rows (unchanged_cond pk0) (λ j, project (columns current_data) j.2)
            (all_pairs pks current_data new_data))%list.
Proof.
  unfold final_df, buckets, joined_df, join_fullouter.
  case_decide as Hon; [|done]. destruct Hon as [Hnd Hcd].
  unfold updated_rows, new_rows, unchanged_rows, resolve_compared, resolve_all.
  simpl.
  destruct (first_key pks) as [|pk0] eqn:Hpk0; [done|]. simpl.
  repeat (match goal with
          | |- context [resolve ?cols ?c] =>
              destruct (resolve cols c) eqn:?; simpl; [done|]
          end).
  case_decide; [|done]. simpl.
  unfold unionByName. simpl.
  case_decide; [|done]. simpl.
  case_decide; [|done]. simpl.
  intros [= <-]. exists pk0. simpl.
  repeat split; [done..|].
  unfold bucket_rows, all_pairs. rewrite <- (assoc_L (++)).
  do 2 f_equal.
  apply list_fmap_ext. intros _ j _. simpl.
  apply project_ext. intros c. by apply selected_columns.
Qed.

(** ** Keys and the join condition *)

Section keys.
Context (pks : list string).

Lemma key_of_project cols (r : Row) :
  pks ⊆ cols → key_of pks (project cols r) = key_of pks r.
Proof.
  intros Hsub. unfold key_of. apply list_fmap_ext. intros i pk Hpk.
  apply project_lookup, Hsub. by eapply list_elem_of_lookup_2.
Qed.

Lemma using_match_key_eq (n c : Row) :
  using_match pks n c → key_of pks n = key_of pks c.
Proof.
  unfold using_match, key_of. induction 1 as [|pk l Hpk _ IH]; [done|].
  rewrite !fmap_cons. f_equal; [|exact IH].
  destruct (proj1 (sql_eq_true _ _) Hpk) as (x & Hn & Hc). by rewrite Hn, Hc.
Qed.

Lemma using_match_has_key (n c : Row) k :
  using_match pks n c → has_key pks k n ↔ has_key pks k c.
Proof. intros H%using_match_key_eq. unfold has_key. by rewrite H. Qed.

Lemma has_key_using_match (n c : Row) k :
  has_key pks k n → has_key pks k c → using_match pks n c.
Proof.
  unfold has_key, key_of, using_match. revert k.
  induction pks as [|pk l IH]; intros k Hn Hc; [constructor|].
  destruct k as [|v k]; [done|]. simpl in *.
  injection Hn as Hn1 Hn2. injection Hc as Hc1 Hc2.
  constructor; [|by eapply IH].
  apply sql_eq_true. eauto.
Qed.

Lemma using_match_not_null (n c : Row) pk :
  using_match pks n c → pk ∈ pks → is_Some (n !! pk) ∧ is_Some (c !! pk).
Proof.
  unfold using_match. rewrite Forall_forall. intros H Hpk.
  destruct (proj1 (sql_eq_true _ _) (H _ Hpk)) as (x & Hn & Hc).
  rewrite Hn, Hc. eauto.
Qed.
End keys.

Lemma has_key_empty pk0 rest k : ¬ has_key (pk0 :: rest) k ∅.
Proof.
  unfold has_key, key_of. destruct k; simpl; [done|].
  rewrite lookup_empty. done.
Qed.

(** ** The joined rows *)

Lemma elem_of_left_pairs on (cd_rows : list Row) (n : Row) j :
  j ∈ left_pairs on cd_rows n →
  j.1 = n ∧ (j.2 = ∅ ∨ (j.2 ∈ cd_rows ∧ using_match on n j.2)).
Proof.
  unfold left_pairs.
  destruct (filter (using_match on n) cd_rows) as [|c ms] eqn:Hf.
  - intros ->%list_elem_of_singleton. auto.
  - intros (c' & -> & Hc')%list_elem_of_fmap. rewrite <- Hf in Hc'.
    apply list_elem_of_filter in Hc' as [? ?]. auto.
Qed.

Lemma elem_of_right_only on (nd_rows cd_rows : list Row) j :
  j ∈ right_only on nd_rows cd_rows → j.1 = ∅ ∧ j.2 ∈ cd_rows.
Proof.
  unfold right_only. intros (c & -> & Hc)%list_elem_of_fmap.
  apply list_elem_of_filter in Hc as [_ ?]. auto.
Qed.

(** A left row without partner is padded; a left row with a single partner
    gives a single pair. *)
Lemma left_pairs_unmatched on (cd_rows : list Row) (n : Row) :
  (∀ c, c ∈ cd_rows → ¬ using_match on n c) →
  left_pairs on cd_rows n = [(n, ∅)].
Proof.
  intros H. unfold left_pairs.
  destruct (filter (using_match on n) cd_rows) as [|c ms] eqn:Hf; [done|].
  assert (c ∈ filter (using_match on n) cd_rows) as Hc by (rewrite Hf; left).
  apply list_elem_of_filter in Hc as [? ?]. exfalso. naive_solver.
Qed.

Lemma filter_unique {A K} (key : A → K) (P : A → Prop) `{!∀ x, Decision (P x)}
    (l : list A) (a : A) :
  NoDup (key <$> l) → a ∈ l → P a →
  (∀ x, x ∈ l → P x → key x = key a) →
  filter P l = [a].
Proof.
  induction l as [|x l IH]; intros Hnd Ha HP Hkey; [by apply elem_of_nil in Ha|].
  rewrite fmap_cons in Hnd. apply NoDup_cons in Hnd as [Hx Hnd].
  assert (∀ y, y ∈ l → key y ≠ key x) as Hfresh.
  { intros y Hy Heq. apply Hx. rewrite <- Heq. by apply list_elem_of_fmap_2. }
  destruct (decide (P x)) as [HPx|HPx].
  - assert (key x = key a) as Hxa by (apply Hkey; [left|done]).
    apply elem_of_cons in Ha as [->|Ha]; [|by destruct (Hfresh a Ha)].
    rewrite filter_cons_True by done. f_equal.
    apply elem_of_nil_inv. intros y [HPy Hy]%list_elem_of_filter.
    apply (Hfresh y Hy). apply Hkey; [by right|done].
  - rewrite filter_cons_False by done.
    apply elem_of_cons in Ha as [->|Ha]; [done|].
    apply IH; [done..|]. intros y Hy. apply Hkey. by right.
Qed.

Lemma left_pairs_matched pks (current_data : DataFrame) (n c : Row) k :
  unique_keys pks current_data →
  c ∈ rows current_data → has_key pks k n → has_key pks k c →
  left_pairs pks (rows current_data) n = [(n, c)].
Proof.
  intros Huniq Hc Hn Hck. unfold left_pairs.
  rewrite (filter_unique (key_of pks) _ _ c); [done|done|done|..].
  - by eapply has_key_using_match.
  - intros x _ Hx. apply using_match_key_eq in Hx. rewrite <- Hx.
    unfold has_key in *. congruence.
Qed.

(** ** The rows of one key in a bucket *)

Lemma bucket_rows_app g f l1 l2 :
  bucket_rows g f (l1 ++ l2) = (bucket_rows g f l1 ++ bucket_rows g f l2)%list.
Proof. unfold bucket_rows, sql_filter. by rewrite filter_app, fmap_app. Qed.

Lemma filter_bucket_nil (Q : Row → Prop) `{!∀ r, Decision (Q r)} g f l :
  (∀ j, j ∈ l → g j = Some true → ¬ Q (f j)) →
  filter Q (bucket_rows g f l) = [].
Proof.
  intros Hno. apply elem_of_nil_inv. intros r [HQ Hr]%list_elem_of_filter.
  apply list_elem_of_fmap in Hr as (j & -> & Hj).
  apply list_elem_of_filter in Hj as [Hg Hj]. by eapply Hno.
Qed.

Lemma filter_bucket_bind {A} (Q : Row → Prop) `{!∀ r, Decision (Q r)} g f
    (h : A → list (Row * Row)) (l : list A) :
  filter Q (bucket_rows g f (l ≫= h))
  = l ≫= (λ x, filter Q (bucket_rows g f (h x))).
Proof.
  induction l as [|x l IH]; [done|].
  by rewrite !bind_cons, bucket_rows_app, filter_app, IH.
Qed.

Lemma bind_all_nil {A B} (F : A → list B) (l : list A) :
  (∀ x, x ∈ l → F x = []) → l ≫= F = [].
Proof.
  induction l as [|x l IH]; intros H; [done|].
  rewrite bind_cons, H, IH; [done| |left]. intros y Hy. apply H. by right.
Qed.

(** Under distinct keys, a flattening to which only the elements of one key
    contribute is the contribution of the element that has the key. *)
Lemma bind_unique {A B K} (key : A → K) (F : A → list B) (l : list A) (a : A) :
  NoDup (key <$> l) → a ∈ l →
  (∀ x, x ∈ l → key x ≠ key a → F x = []) →
  l ≫= F = F a.
Proof.
  induction l as [|x l IH]; intros Hnd Ha HF; [by apply elem_of_nil in Ha|].
  rewrite fmap_cons in Hnd. apply NoDup_cons in Hnd as [Hx Hnd].
  assert (∀ y, y ∈ l → key y ≠ key x) as Hfresh.
  { intros y Hy Heq. apply Hx. rewrite <- Heq. by apply list_elem_of_fmap_2. }
  rewrite bind_cons. apply elem_of_cons in Ha as [->|Ha].
  - rewrite bind_all_nil; [by rewrite app_nil_r|].
    intros y Hy. apply HF; [by right|]. by apply Hfresh.
  - rewrite HF, IH; [done..| |left|].
    + intros y Hy. apply HF. by right.
    + intros Heq. by apply (Hfresh a Ha).
Qed.

Section bucket.
Context (pks : list string) (current_data new_data : DataFrame) (k : list value).
Context (g : Row * Row → option bool) (f : Row * Row → Row).

(** A pair of a left row that passes the filter and comes out with key
    [k] comes from a left row with key [k]; no right-only pair passes the
    filter and comes out with key [k]. *)
Hypothesis Hleft : ∀ x j,
  x ∈ rows new_data → j ∈ left_pairs pks (rows current_data) x →
  g j = Some true → has_key pks k (f j) → has_key pks k x.
Hypothesis Hright : ∀ j,
  j ∈ right_only pks (rows new_data) (rows current_data) →
  g j = Some true → ¬ has_key pks k (f j).

Lemma bucket_key_absent :
  ¬ key_in pks k new_data →
  filter (has_key pks k) (bucket_rows g f (all_pairs pks current_data new_data)) = [].
Proof.
  intros Hk. unfold all_pairs.
  rewrite bucket_rows_app, filter_app, filter_bucket_bind.
  rewrite (filter_bucket_nil _ _ _ _ Hright), app_nil_r.
  apply bind_all_nil. intros x Hx. apply filter_bucket_nil.
  intros j Hj Hg Hkey. apply Hk, Exists_exists. exists x. eauto.
Qed.

Lemma bucket_key_present n :
  unique_keys pks new_data → n ∈ rows new_data → has_key pks k n →
  filter (has_key pks k) (bucket_rows g f (all_pairs pks current_data new_data))
  = filter (has_key pks k)
      (bucket_rows g f (left_pairs pks (rows current_data) n)).
Proof.
  intros Huniq Hn Hkn. unfold all_pairs.
  rewrite bucket_rows_app, filter_app, filter_bucket_bind.
  rewrite (filter_bucket_nil _ _ _ _ Hright), app_nil_r.
  apply (bind_unique (key_of pks)
           (λ x, filter (has_key pks k)
                   (bucket_rows g f (left_pairs pks (rows current_data) x))));
    [done..|].
  intros x Hx Hne. apply filter_bucket_nil.
  intros j Hj Hg Hkey. apply Hne.
  unfold has_key in *. rewrite Hkn. eauto.
Qed.
End bucket.

(** ** When a joined row passes each filter *)

Lemma isNotNull_true a : isNotNull a = Some true ↔ is_Some a.
Proof.
  unfold isNotNull. split.
  - intros [= H]. by apply bool_decide_eq_true in H.
  - intros H. by rewrite bool_decide_eq_true_2.
Qed.

Lemma new_cond_true pk0 j : new_cond pk0 j = Some true ↔ j.2 !! pk0 = None.
Proof.
  unfold new_cond, isNull. split.
  - intros [= H]. by apply bool_decide_eq_true in H.
  - intros H. by rewrite bool_decide_eq_true_2.
Qed.

Lemma both_sides_true pk0 j :
  both_sides pk0 j = Some true ↔ is_Some (j.1 !! pk0) ∧ is_Some (j.2 !! pk0).
Proof. unfold both_sides. by rewrite sql_and_true, !isNotNull_true. Qed.

Lemma changed_true j :
  changed j = Some true ↔
  differs (j.1 !! "value_col") (j.2 !! "value_col") ∨
  differs (j.1 !! "another_col") (j.2 !! "another_col").
Proof. unfold changed. by rewrite sql_or_true, !sql_ne_true. Qed.

Lemma changed_false j :
  changed j = Some false ↔
  same (j.1 !! "value_col") (j.2 !! "value_col") ∧
  same (j.1 !! "another_col") (j.2 !! "another_col").
Proof. unfold changed. by rewrite sql_or_false, !sql_ne_false. Qed.

Lemma updated_cond_true pk0 j :
  updated_cond pk0 j = Some true ↔
  (is_Some (j.1 !! pk0) ∧ is_Some (j.2 !! pk0)) ∧
  (differs (j.1 !! "value_col") (j.2 !! "value_col") ∨
   differs (j.1 !! "another_col") (j.2 !! "another_col")).
Proof. unfold updated_cond. by rewrite sql_and_true, both_sides_true, changed_true. Qed.

Lemma unchanged_cond_true pk0 j :
  unchanged_cond pk0 j = Some true ↔
  (is_Some (j.1 !! pk0) ∧ is_Some (j.2 !! pk0)) ∧
  same (j.1 !! "value_col") (j.2 !! "value_col") ∧
  same (j.1 !! "another_col") (j.2 !! "another_col").
Proof.
  unfold unchanged_cond.
  by rewrite sql_and_true, both_sides_true, sql_not_true, changed_false.
Qed.

(** No joined row passes two filters. *)
Lemma differs_not_same a b : differs a b → same a b → False.
Proof. intros (_ & _ & Hne) [_ Heq]. done. Qed.

Lemma buckets_disjoint pk0 j :
  ¬ (new_cond pk0 j = Some true ∧ updated_cond pk0 j = Some true) ∧
  ¬ (new_cond pk0 j = Some true ∧ unchanged_cond pk0 j = Some true) ∧
  ¬ (updated_cond pk0 j = Some true ∧ unchanged_cond pk0 j = Some true).
Proof.
  rewrite new_cond_true, updated_cond_true, unchanged_cond_true.
  repeat split.
  - intros (Hnone & (_ & [? Hsome]) & _). congruence.
  - intros (Hnone & (_ & [? Hsome]) & _). congruence.
  - intros ((_ & [Hd|Hd]) & _ & ? & ?); eauto using differs_not_same.
Qed.

Lemma bucket_rows_singleton g f j :
  bucket_rows g f [j] = if decide (g j = Some true) then [f j] else [].
Proof. unfold bucket_rows, sql_filter. rewrite filter_cons, filter_nil. by case_decide. Qed.

(** ** The rows of one key in the reconciled frame *)

Section one_key.
Context (pks : list string) (current_data new_data R : DataFrame).
Context (k : list value).
Hypothesis Hrun : final_df current_data new_data pks = inr R.

Lemma nd_side_left cols g x j :
  pks ⊆ cols →
  x ∈ rows new_data → j ∈ left_pairs pks (rows current_data) x →
  g j = Some true → has_key pks k (project cols j.1) → has_key pks k x.
Proof.
  intros Hsub _ [-> _]%elem_of_left_pairs _. unfold has_key.
  by rewrite key_of_project.
Qed.

Lemma nd_side_right cols g j :
  pks ≠ [] →
  j ∈ right_only pks (rows new_data) (rows current_data) →
  g j = Some true → ¬ has_key pks k (project cols j.1).
Proof.
  intros Hne [-> _]%elem_of_right_only _. rewrite project_empty.
  destruct pks; [done|]. apply has_key_empty.
Qed.

Lemma cd_side_left cols g x j :
  pks ≠ [] → pks ⊆ cols →
  x ∈ rows new_data → j ∈ left_pairs pks (rows current_data) x →
  g j = Some true → has_key pks k (project cols j.2) → has_key pks k x.
Proof.
  intros Hne Hsub _ [_ [->|[_ Hm]]]%elem_of_left_pairs _.
  - rewrite project_empty. destruct pks; [done|]. by intros ?%has_key_empty.
  - unfold has_key at 1. rewrite key_of_project by done.
    by apply using_match_has_key.
Qed.

Lemma cd_side_right pk0 cols j :
  j ∈ right_only pks (rows new_data) (rows current_data) →
  unchanged_cond pk0 j = Some true → ¬ has_key pks k (project cols j.2).
Proof.
  intros [Hj _]%elem_of_right_only [[[? Hsome] _] _]%unchanged_cond_true.
  rewrite Hj, lookup_empty in Hsome. done.
Qed.

(** A key that is not in [new_data] has no row. *)
Lemma rows_of_key_absent :
  ¬ key_in pks k new_data → rows_of_key pks k R = [].
Proof.
  intros Hk.
  destruct (final_df_inr _ _ _ _ Hrun) as (pk0 & Hpk & Hnd & Hcd & _ & Hrows).
  apply first_key_inr in Hpk as [rest Hpk].
  assert (pks ≠ []) as Hne by (by rewrite Hpk).
  unfold rows_of_key. rewrite Hrows, !filter_app.
  rewrite !bucket_key_absent;
    eauto using nd_side_left, nd_side_right, cd_side_left, cd_side_right.
Qed.

(** Under distinct keys in [new_data], the rows of a key of [new_data] are
    those that the joined rows of its row contribute. *)
Lemma rows_of_key_present n :
  unique_keys pks new_data → n ∈ rows new_data → has_key pks k n →
  ∃ pk0,
    first_key pks = inr pk0 ∧
    pks ⊆ columns new_data ∧ pks ⊆ columns current_data ∧
    rows_of_key pks k R =
      (filter (has_key pks k)
         (bucket_rows (new_cond pk0) (λ j, project (columns new_data) j.1)
            (left_pairs pks (rows current_data) n))
       ++ filter (has_key pks k)
            (bucket_rows (updated_cond pk0) (λ j, project (columns new_data) j.1)
               (left_pairs pks (rows current_data) n))
       ++ filter (has_key pks k)
            (bucket_rows (unchanged_cond pk0) (λ j, project (columns current_data) j.2)
               (left_pairs pks (rows current_data) n)))%list.
Proof.
  intros Huniq Hn Hkn.
  destruct (final_df_inr _ _ _ _ Hrun) as (pk0 & Hpk & Hnd & Hcd & _ & Hrows).
  exists pk0. repeat split; [done..|].
  apply first_key_inr in Hpk as [rest Hpk].
  assert (pks ≠ []) as Hne by (by rewrite Hpk).
  unfold rows_of_key. rewrite Hrows, !filter_app.
  rewrite !bucket_key_present with (n := n);
    eauto using nd_side_left, nd_side_right, cd_side_left, cd_side_right.
Qed.
End one_key.

(** ** The joined row of a key, filter by filter *)

Lemma project_wf (df : DataFrame) (r : Row) :
  rows_wf df → r ∈ rows df → project (columns df) r = r.
Proof.
  unfold rows_wf. rewrite Forall_forall. intros Hwf Hr.
  apply project_id. intros c [v Hv]. by apply (Hwf r Hr c v).
Qed.

Lemma key_in_intro pks k (df : DataFrame) (r : Row) :
  r ∈ rows df → has_key pks k r → key_in pks k df.
Proof. intros. apply Exists_exists. eauto. Qed.

Lemma pad_new pk0 (n : Row) : new_cond pk0 (n, ∅) = Some true.
Proof. apply new_cond_true. apply lookup_empty. Qed.

Lemma pad_not_updated pk0 (n : Row) : updated_cond pk0 (n, ∅) ≠ Some true.
Proof.
  intros [[_ [? H]] _]%updated_cond_true. simpl in H.
  by rewrite lookup_empty in H.
Qed.

Lemma pad_not_unchanged pk0 (n : Row) : unchanged_cond pk0 (n, ∅) ≠ Some true.
Proof.
  intros [[_ [? H]] _]%unchanged_cond_true. simpl in H.
  by rewrite lookup_empty in H.
Qed.

Lemma matched_both_sides pk0 rest (n c : Row) :
  using_match (pk0 :: rest) n c → is_Some (n !! pk0) ∧ is_Some (c !! pk0).
Proof. intros H. eapply using_match_not_null; [done|left]. Qed.

Lemma matched_not_new pk0 rest (n c : Row) :
  using_match (pk0 :: rest) n c → new_cond pk0 (n, c) ≠ Some true.
Proof.
  intros [_ [? Hc]]%matched_both_sides Hnone%new_cond_true.
  simpl in Hnone. congruence.
Qed.

(** ** Inserted, dropped, updated and unchanged keys *)

(** C2: a key of [new_data] that is not in [current_data] has exactly one row
    in the reconciled frame, and that row is the row of [new_data] (keys of
    [new_data] being distinct, as the data model assumes). *)
Theorem new_key_inserted_once current_data new_data pks R k (n : Row) :
  final_df current_data new_data pks = inr R →
  rows_wf new_data → unique_keys pks new_data →
  n ∈ rows new_data → has_key pks k n →
  ¬ key_in pks k current_data →
  rows_of_key pks k R = [n].
Proof.
  intros Hrun Hwf Huniq Hn Hkn Hk.
  destruct (rows_of_key_present _ _ _ _ k Hrun n) as (pk0 & _ & _ & _ & ->);
    [done..|].
  rewrite left_pairs_unmatched.
  2:{ intros c Hc Hm. apply Hk. apply (key_in_intro _ _ _ c); [done|].
      by apply (using_match_has_key pks n c k). }
  rewrite !bucket_rows_singleton.
  rewrite decide_True by apply pad_new.
  rewrite !decide_False by (apply pad_not_updated || apply pad_not_unchanged).
  simpl. rewrite project_wf by done.
  rewrite app_nil_r, filter_cons_True by done. done.
Qed.

Lemma new_key_inserted_once_witness :
  rows_of_key ["id"] [VInt 3] sample_reconciled
  = [sample_row 3 (Some "c") (Some "x") (Some "new")].
Proof.
  apply (new_key_inserted_once sample_current sample_new);
    [by vm_compute | by_compute..].
Defined.

(** C3: a key of [current_data] that is not in [new_data] has no row in the
    reconciled frame. *)
Theorem current_only_key_dropped current_data new_data pks R k :
  final_df current_data new_data pks = inr R →
  key_in pks k current_data → ¬ key_in pks k new_data →
  rows_of_key pks k R = [].
Proof. intros Hrun _ Hk. by eapply rows_of_key_absent. Qed.

Lemma current_only_key_dropped_witness :
  rows_of_key ["id"] [VInt 1] sample_reconciled = [].
Proof.
  apply (current_only_key_dropped sample_current sample_new);
    [by vm_compute | by_compute..].
Defined.

Section shared_key.
Context (pks : list string) (current_data new_data R : DataFrame).
Context (k : list value) (n c : Row).
Hypothesis Hrun : final_df current_data new_data pks = inr R.
Hypothesis Hnew : unique_keys pks new_data.
Hypothesis Hcur : unique_keys pks current_data.
Hypothesis Hn : n ∈ rows new_data.
Hypothesis Hc : c ∈ rows current_data.
Hypothesis Hkn : has_key pks k n.
Hypothesis Hkc : has_key pks k c.

(** The rows of a key that both frames hold come from the one joined row
    of the key. *)
Lemma rows_of_shared_key :
  ∃ pk0 rest,
    pks = pk0 :: rest ∧
    using_match pks n c ∧
    rows_of_key pks k R =
      (filter (has_key pks k)
         (if decide (updated_cond pk0 (n, c) = Some true)
          then [project (columns new_data) n] else [])
       ++ filter (has_key pks k)
            (if decide (unchanged_cond pk0 (n, c) = Some true)
             then [project (columns current_data) c] else []))%list.
Proof.
  destruct (rows_of_key_present _ _ _ _ k Hrun n) as (pk0 & Hpk & _ & _ & ->);
    [done..|].
  apply first_key_inr in Hpk as [rest Hpk]. exists pk0, rest.
  assert (using_match pks n c) as Hm by (by eapply has_key_using_match).
  repeat split; [done..|].
  rewrite (left_pairs_matched pks current_data n c k) by done.
  rewrite !bucket_rows_singleton.
  rewrite (decide_False (P := new_cond _ _ = _)); [done|].
  rewrite Hpk in Hm. by eapply matched_not_new.
Qed.
End shared_key.

(** C4: a key that both frames hold, with a compared column that differs
    between the two rows (both cells non-NULL), has one row in the
    reconciled frame: the row of [new_data], key columns and all. *)
Theorem changed_key_takes_new_row current_data new_data pks R k (n c : Row) :
  final_df current_data new_data pks = inr R →
  rows_wf new_data →
  unique_keys pks new_data → unique_keys pks current_data →
  n ∈ rows new_data → c ∈ rows current_data →
  has_key pks k n → has_key pks k c →
  differs (n !! "value_col") (c !! "value_col") ∨
    differs (n !! "another_col") (c !! "another_col") →
  rows_of_key pks k R = [n].
Proof.
  intros Hrun Hwf Hnew Hcur Hn Hc Hkn Hkc Hd.
  destruct (rows_of_shared_key pks current_data new_data R k n c)
    as (pk0 & rest & Hpk & Hm & ->); [done..|].
  rewrite Hpk in Hm. apply matched_both_sides in Hm.
  assert (updated_cond pk0 (n, c) = Some true) as Hu
    by (by apply updated_cond_true).
  rewrite (decide_True (P := updated_cond _ _ = _)) by done.
  rewrite (decide_False (P := unchanged_cond _ _ = _)).
  2:{ intros Hun. by destruct (buckets_disjoint pk0 (n, c)) as (_ & _ & []). }
  rewrite project_wf by done.
  rewrite filter_nil, app_nil_r, filter_cons_True by done. done.
Qed.

Lemma changed_key_takes_new_row_witness :
  rows_of_key ["id"] [VInt 2] sample_reconciled
  = [sample_row 2 (Some "B") (Some "x") (Some "new")].
Proof.
  apply (changed_key_takes_new_row sample_current sample_new ["id"]
           sample_reconciled [VInt 2]
           (sample_row 2 (Some "B") (Some "x") (Some "new"))
           (sample_row 2 (Some "b") (Some "x") (Some "old")));
    [by vm_compute | by_compute..].
Defined.

(** C5: a key that both frames hold, with each compared column equal and
    non-NULL in the two rows, has one row in the reconciled frame: the row
    of [current_data]. *)
Theorem unchanged_key_keeps_current_row current_data new_data pks R k (n c : Row) :
  final_df current_data new_data pks = inr R →
  rows_wf current_data →
  unique_keys pks new_data → unique_keys pks current_data →
  n ∈ rows new_data → c ∈ rows current_data →
  has_key pks k n → has_key pks k c →
  same (n !! "value_col") (c !! "value_col") →
  same (n !! "another_col") (c !! "another_col") →
  rows_of_key pks k R = [c].
Proof.
  intros Hrun Hwf Hnew Hcur Hn Hc Hkn Hkc Hv Ha.
  destruct (rows_of_shared_key pks current_data new_data R k n c)
    as (pk0 & rest & Hpk & Hm & ->); [done..|].
  rewrite Hpk in Hm. apply matched_both_sides in Hm.
  assert (unchanged_cond pk0 (n, c) = Some true) as Hu
    by (by apply unchanged_cond_true).
  rewrite (decide_True (P := unchanged_cond _ _ = _)) by done.
  rewrite (decide_False (P := updated_cond _ _ = _)).
  2:{ intros Hup. by destruct (buckets_disjoint pk0 (n, c)) as (_ & _ & []). }
  rewrite project_wf by done.
  rewrite filter_nil, filter_cons_True by done. done.
Qed.

Lemma unchanged_key_keeps_current_row_witness :
  rows_of_key ["id"] [VInt 4] sample_reconciled
  = [sample_row 4 (Some "d") (Some "y") (Some "old")].
Proof.
  apply (unchanged_key_keeps_current_row sample_current sample_new ["id"]
           sample_reconciled [VInt 4]
           (sample_row 4 (Some "d") (Some "y") (Some "new"))
           (sample_row 4 (Some "d") (Some "y") (Some "old")));
    [by vm_compute | by_compute..].
Defined.

(** Keys are tuples of non-NULL values.  A row of [current_data] with a
    NULL key cell has no partner, passes the filter of the new rows (its
    [cd] key is NULL) and leaves the all-NULL [nd] half in the reconciled
    frame. *)
Example null_key_row_leaves_null_row :
  final_df null_key_current empty_new ["id"] = inr (mkDF schema [∅]).
Proof. by vm_compute. Qed.

(** ** NULL in a compared column *)

(** C10, as amended: a key that both frames hold, with a NULL in a compared
    cell of its two rows and no compared column whose two cells are non-NULL
    and differ, passes neither the filter of the updated rows nor the filter
    of the unchanged rows, and has no row in the reconciled frame. *)
Theorem null_compared_key_has_no_row current_data new_data pks R k (n c : Row) :
  final_df current_data new_data pks = inr R →
  unique_keys pks new_data → unique_keys pks current_data →
  n ∈ rows new_data → c ∈ rows current_data →
  has_key pks k n → has_key pks k c →
  compared_null n c →
  ¬ differs (n !! "value_col") (c !! "value_col") →
  ¬ differs (n !! "another_col") (c !! "another_col") →
  ∃ pk0,
    first_key pks = inr pk0 ∧
    updated_cond pk0 (n, c) ≠ Some true ∧
    unchanged_cond pk0 (n, c) ≠ Some true ∧
    rows_of_key pks k R = [].
Proof.
  intros Hrun Hnew Hcur Hn Hc Hkn Hkc Hnull Hv Ha.
  destruct (rows_of_shared_key pks current_data new_data R k n c)
    as (pk0 & rest & Hpk & Hm & ->); [done..|].
  assert (updated_cond pk0 (n, c) ≠ Some true) as Hu.
  { intros [_ [?|?]]%updated_cond_true; done. }
  assert (unchanged_cond pk0 (n, c) ≠ Some true) as Hun.
  { intros (_ & [[v Hnv] Hcv] & [[a Hna] Hca])%unchanged_cond_true.
    simpl in *. unfold compared_null in Hnull.
    destruct Hnull as [?|[?|[?|?]]]; congruence. }
  exists pk0. rewrite Hpk. repeat split; [done..|].
  by rewrite !decide_False by done.
Qed.

Lemma null_compared_key_has_no_row_witness :
  ∃ pk0,
    first_key ["id"] = inr pk0 ∧
    updated_cond pk0 (sample_row 1 None (Some "x") (Some "new"),
                      sample_row 1 None (Some "x") (Some "old")) ≠ Some true ∧
    unchanged_cond pk0 (sample_row 1 None (Some "x") (Some "new"),
                        sample_row 1 None (Some "x") (Some "old")) ≠ Some true ∧
    rows_of_key ["id"] [VInt 1] (mkDF schema []) = [].
Proof.
  apply (null_compared_key_has_no_row null_current null_new);
    [by vm_compute | by_compute..].
Defined.

(** C10, as stated, fails: with [value_col] NULL on both sides and
    [another_col] changed, the joined row passes the filter of the updated
    rows and the key keeps a row, the one of [new_data]. *)
Lemma null_compared_key_can_be_updated :
  let n := sample_row 1 None (Some "y") (Some "new") in
  let c := sample_row 1 None (Some "x") (Some "old") in
  n ∈ rows null_changed_new ∧ c ∈ rows null_changed_current ∧
  has_key ["id"] [VInt 1] n ∧ has_key ["id"] [VInt 1] c ∧
  compared_null n c ∧
  updated_cond "id" (n, c) = Some true ∧
  ∃ R, final_df null_changed_current null_changed_new ["id"] = inr R ∧
       rows_of_key ["id"] [VInt 1] R = [n].
Proof.
  repeat split; try by_compute; try (by vm_compute).
  eexists. split; by vm_compute.
Qed.

(** C8: with [value_col] NULL on both sides and [another_col] the same, the
    filter of the unchanged rows evaluates to unknown, not to true: the key
    is in no bucket and the reconciled frame has no row for it. *)
Theorem null_pair_not_kept_as_unchanged :
  let n := sample_row 1 None (Some "x") (Some "new") in
  let c := sample_row 1 None (Some "x") (Some "old") in
  all_pairs ["id"] null_current null_new = [(n, c)] ∧
  changed (n, c) = None ∧
  unchanged_cond "id" (n, c) = None ∧
  (∃ b, buckets null_current null_new ["id"] = inr b ∧
        rows (b_unchanged b) = [] ∧ rows (b_updated b) = [] ∧ rows (b_new b) = []) ∧
  ∃ R, final_df null_current null_new ["id"] = inr R ∧
       rows_of_key ["id"] [VInt 1] R = [].
Proof.
  repeat split; try (by vm_compute).
  - eexists. repeat split; by vm_compute.
  - eexists. split; by vm_compute.
Qed.

(** C1: on the same frames the keys are distinct and non-NULL on both sides
    and the one key of [new_data] is shared, so the row-count law asks for
    one row; the reconciled frame has none. *)
Theorem row_count_law_broken_by_null :
  unique_keys ["id"] null_current ∧ keys_not_null ["id"] null_current ∧
  unique_keys ["id"] null_new ∧ keys_not_null ["id"] null_new ∧
  length (new_only ["id"] null_current null_new) = 0 ∧
  length (overlap ["id"] null_current null_new) = 1 ∧
  ∃ R, final_df null_current null_new ["id"] = inr R ∧ length (rows R) = 0.
Proof.
  repeat split; try by_compute; try (by vm_compute).
  eexists. split; by vm_compute.
Qed.

(** C7: the first run on these frames writes an empty table; the second
    run, with that table as [current_data] and the same [new_data], finds
    the key of [new_data] missing and puts its row in the bucket of the new
    rows. *)
Theorem second_run_inserts_again :
  let run1 :=
    update_and_load_to_aurora null_current null_new ["id"]
      sample_url sample_table sample_properties open_world in
  run1.1 = inr () ∧
  ∃ written b,
    tables run1.2 !! (sample_url, sample_table) = Some written ∧
    rows written = [] ∧
    buckets written null_new ["id"] = inr b ∧
    rows (b_new b) = rows null_new ∧
    rows (b_unchanged b) = [].
Proof.
  split; [by vm_compute|].
  eexists _, _. repeat split; by vm_compute.
Qed.

(** ** Empty key list *)

(** C9, as amended: with an empty [primary_keys] the function raises
    Python's [IndexError] at [primary_keys[0]], before the union and the
    write: the destination and the output are as they were, and the
    exception is the result of the call. *)
Theorem empty_primary_keys_raise_before_write
    current_data new_data url table properties w :
  update_and_load_to_aurora current_data new_data [] url table properties w
  = (inl IndexError, w).
Proof.
  unfold update_and_load_to_aurora, final_df, buckets, joined_df, join_fullouter.
  rewrite decide_True; [done|].
  split; apply list_subseteq_nil.
Qed.

(** C9, as stated, fails: the function has no error of its own for the
    empty key list.  On the sample frames the call ends in the bare
    [IndexError] of the list indexing, which is also the only exception a
    call with an empty key list can end in. *)
Lemma empty_key_list_raises_bare_index_error :
  let out :=
    update_and_load_to_aurora sample_current sample_new []
      sample_url sample_table sample_properties open_world in
  out = (inl IndexError, open_world) ∧
  ∀ e, out.1 = inl e → e = IndexError.
Proof. split; [by vm_compute|]. by intros e [= <-]. Qed.

(** ** The example of the design document *)

(** C6, as stated, fails: the example frames have no column [another_col],
    which the filters refer to, so the function raises and writes
    nothing. *)
Lemma doc_example_raises :
  final_df doc_current doc_new ["id"] = inl AnalysisException ∧
  update_and_load_to_aurora doc_current doc_new ["id"]
    sample_url sample_table sample_properties open_world
  = (inl AnalysisException, open_world).
Proof. split; by vm_compute. Qed.

(** C6, as amended: when the two frames also have the column
    [another_col], whatever its cells hold, the function reconciles the
    example to the row of key 2 with the values of [new_data] and the row of
    key 3; key 1 has no row. *)
Theorem doc_example_with_another_col (a1 a2 b2 b3 : option value) :
  ∃ R,
    final_df (doc_current3 a1 a2) (doc_new3 b2 b3) ["id"] = inr R ∧
    columns R = doc_schema3 ∧
    rows R ≡ₚ [with_another b2 (doc_row 2 "B"); with_another b3 (doc_row 3 "c")] ∧
    rows_of_key ["id"] [VInt 1] R = [].
Proof.
  exists (mkDF doc_schema3
            [with_another b3 (doc_row 3 "c"); with_another b2 (doc_row 2 "B")]).
  repeat split.
  - destruct a1, a2, b2, b3; by vm_compute.
  - apply Permutation_swap.
  - destruct b2, b3; by vm_compute.
Qed.

(** ** The row-count law when no compared cell is NULL *)

Lemma tally_app pk0 l1 l2 : tally pk0 (l1 ++ l2) = tally pk0 l1 + tally pk0 l2.
Proof. unfold tally, sql_filter. rewrite !filter_app, !length_app. lia. Qed.

Lemma tally_singleton pk0 j :
  tally pk0 [j]
  = (if decide (new_cond pk0 j = Some true) then 1 else 0)
    + (if decide (updated_cond pk0 j = Some true) then 1 else 0)
    + (if decide (unchanged_cond pk0 j = Some true) then 1 else 0).
Proof.
  unfold tally, sql_filter. rewrite !filter_cons, !filter_nil.
  by repeat case_decide.
Qed.

Lemma tally_pad pk0 (n : Row) : tally pk0 [(n, ∅)] = 1.
Proof.
  rewrite tally_singleton, decide_True by apply pad_new.
  by rewrite !decide_False by (apply pad_not_updated || apply pad_not_unchanged).
Qed.

(** Two non-NULL cells are the same or differ. *)
Lemma same_or_differs a b : is_Some a → is_Some b → same a b ∨ differs a b.
Proof.
  intros Ha Hb. unfold same, differs.
  destruct (decide (a = b)); [left|right]; done.
Qed.

Lemma not_compared_null (n c : Row) :
  ¬ compared_null n c →
  (is_Some (n !! "value_col") ∧ is_Some (c !! "value_col")) ∧
  (is_Some (n !! "another_col") ∧ is_Some (c !! "another_col")).
Proof.
  unfold compared_null. intros H.
  repeat split; apply not_eq_None_Some; intros ?; apply H; auto.
Qed.

(** A joined row of two partners without NULL in the compared cells is in
    exactly one of the buckets of the updated and of the unchanged rows. *)
Lemma tally_matched pk0 rest (n c : Row) :
  using_match (pk0 :: rest) n c → ¬ compared_null n c →
  tally pk0 [(n, c)] = 1.
Proof.
  intros Hm [[Hnv Hcv] [Hna Hca]]%not_compared_null.
  rewrite tally_singleton.
  rewrite (decide_False (P := new_cond _ _ = _)) by (by eapply matched_not_new).
  apply matched_both_sides in Hm.
  destruct (same_or_differs _ _ Hnv Hcv) as [Hv|Hv],
           (same_or_differs _ _ Hna Hca) as [Ha|Ha].
  1: assert (unchanged_cond pk0 (n, c) = Some true) as Hu
       by (by apply unchanged_cond_true).
  2-4: assert (updated_cond pk0 (n, c) = Some true) as Hu
       by (apply updated_cond_true; auto).
  all: pose proof (buckets_disjoint pk0 (n, c)) as (_ & _ & Hd).
  all: rewrite (decide_True _ _ Hu), decide_False; [done|tauto].
Qed.

Lemma tally_right_only pks pk0 (current_data new_data : DataFrame) :
  keys_not_null pks current_data → pk0 ∈ pks →
  tally pk0 (right_only pks (rows new_data) (rows current_data)) = 0.
Proof.
  intros Hnn Hpk. unfold keys_not_null in Hnn. rewrite Forall_forall in Hnn.
  assert (∀ g, (∀ j, j ∈ right_only pks (rows new_data) (rows current_data) →
                     g j ≠ Some true) →
               length (sql_filter g
                 (right_only pks (rows new_data) (rows current_data))) = 0) as Hz.
  { intros g Hg. apply length_zero_iff_nil, elem_of_nil_inv.
    intros j [? Hj]%list_elem_of_filter. by apply (Hg j). }
  unfold tally. rewrite !Hz; [done|..].
  - intros j [Hj _]%elem_of_right_only [[[? H] _] _]%unchanged_cond_true.
    by rewrite Hj, lookup_empty in H.
  - intros j [Hj _]%elem_of_right_only [[[? H] _] _]%updated_cond_true.
    by rewrite Hj, lookup_empty in H.
  - intros j [_ Hj]%elem_of_right_only Hnone%new_cond_true.
    specialize (Hnn _ Hj). rewrite Forall_forall in Hnn.
    destruct (Hnn _ Hpk) as [? Hsome]. congruence.
Qed.

Lemma matched_in_unique pks (current_data : DataFrame) (n : Row) :
  unique_keys pks current_data → matched_in pks current_data n →
  ∃ c, c ∈ rows current_data ∧ using_match pks n c ∧
       left_pairs pks (rows current_data) n = [(n, c)].
Proof.
  intros Huniq (c & Hc & Hm)%Exists_exists. exists c. repeat split; [done..|].
  unfold left_pairs.
  rewrite (filter_unique (key_of pks) _ _ c); [done..|].
  intros x _ Hx. apply using_match_key_eq in Hx, Hm. congruence.
Qed.

Lemma tally_left pks pk0 rest (current_data : DataFrame) (l : list Row) :
  pks = pk0 :: rest →
  unique_keys pks current_data →
  (∀ n c, n ∈ l → c ∈ rows current_data → using_match pks n c →
          ¬ compared_null n c) →
  tally pk0 (l ≫= left_pairs pks (rows current_data))
  = length (filter (λ n, ¬ matched_in pks current_data n) l)
    + length (filter (matched_in pks current_data) l).
Proof.
  intros Hpk Huniq. induction l as [|n l IH]; intros Hnull; [done|].
  rewrite bind_cons, tally_app, IH by (intros; eapply Hnull; [by right|done..]).
  rewrite !filter_cons.
  destruct (decide (matched_in pks current_data n)) as [Hin|Hout].
  - rewrite decide_False by tauto.
    destruct (matched_in_unique pks current_data n) as (c & Hc & Hm & ->);
      [done..|].
    rewrite (tally_matched pk0 rest); [simpl; lia| |].
    + by rewrite <- Hpk.
    + eapply Hnull; [left|done..].
  - rewrite decide_True by done.
    rewrite left_pairs_unmatched, tally_pad; [simpl; lia|].
    intros c Hc Hm. apply Hout, Exists_exists. eauto.
Qed.

(** The law of C1 under the condition the function needs for it: with
    distinct, non-NULL keys in [current_data] and no NULL in a compared cell
    of two partner rows, the reconciled frame has one row for each row of
    [new_data]. *)
Lemma row_count_law current_data new_data pks R :
  final_df current_data new_data pks = inr R →
  unique_keys pks current_data → keys_not_null pks current_data →
  (∀ n c, n ∈ rows new_data → c ∈ rows current_data → using_match pks n c →
          ¬ compared_null n c) →
  length (rows R)
  = length (new_only pks current_data new_data)
    + length (overlap pks current_data new_data).
Proof.
  intros Hrun Huniq Hnn Hnull.
  destruct (final_df_inr _ _ _ _ Hrun) as (pk0 & Hpk & _ & _ & _ & ->).
  apply first_key_inr in Hpk as [rest Hpk].
  unfold bucket_rows. rewrite !length_app, !length_fmap.
  transitivity (tally pk0 (all_pairs pks current_data new_data));
    [unfold tally; lia|].
  unfold all_pairs. rewrite tally_app, tally_right_only by (done || (rewrite Hpk; left)).
  by rewrite (tally_left pks pk0 rest), Nat.add_0_r.
Qed.

(** ** A second run when no compared cell is NULL *)

Lemma final_df_compared_columns current_data new_data pks R :
  final_df current_data new_data pks = inr R →
  ("value_col" ∈ columns new_data ∧ "another_col" ∈ columns new_data) ∧
  ("value_col" ∈ columns current_data ∧ "another_col" ∈ columns current_data).
Proof.
  unfold final_df, buckets, joined_df, join_fullouter.
  case_decide as Hon; [|done].
  unfold updated_rows, resolve_compared. simpl.
  destruct (first_key pks) as [|pk0] eqn:Hpk0; [done|]. simpl.
  repeat (match goal with
          | |- context [resolve ?cols ?c] =>
              let H := fresh "Hres" in
              destruct (resolve cols c) eqn:H; simpl; [done|];
              apply resolve_inr in H
          end).
  done.
Qed.

(** The buckets of a run whose columns resolve. *)
Lemma buckets_inr current_data new_data pks pk0 :
  first_key pks = inr pk0 →
  pks ⊆ columns new_data → pks ⊆ columns current_data →
  "value_col" ∈ columns new_data → "another_col" ∈ columns new_data →
  "value_col" ∈ columns current_data → "another_col" ∈ columns current_data →
  ∃ b,
    buckets current_data new_data pks = inr b ∧
    rows (b_new b)
    = bucket_rows (new_cond pk0) (λ j, project (columns new_data) j.1)
        (all_pairs pks current_data new_data) ∧
    rows (b_updated b)
    = bucket_rows (updated_cond pk0)
        (λ j, project (pks ++ filter (λ c, c ∉ pks) (columns new_data))%list j.1)
        (all_pairs pks current_data new_data).
Proof.
  intros Hpk Hnd Hcd Hv Ha Hv' Ha'.
  assert (pk0 ∈ pks) as Hin.
  { apply first_key_inr in Hpk as [rest ->]. left. }
  unfold buckets, joined_df, join_fullouter.
  rewrite decide_True by done. simpl.
  unfold updated_rows, new_rows, unchanged_rows, resolve_compared, resolve_all, resolve.
  rewrite Hpk. simpl.
  rewrite !decide_True; simpl; auto.
  - eexists. split; [done|]. done.
  - intros c Hc. exact (proj1 (selected_columns pks (columns new_data) c Hnd) Hc).
Qed.

Lemma elem_of_all_pairs pks (current_data new_data : DataFrame) j :
  j ∈ all_pairs pks current_data new_data →
  (∃ n, n ∈ rows new_data ∧ j ∈ left_pairs pks (rows current_data) n) ∨
  j ∈ right_only pks (rows new_data) (rows current_data).
Proof.
  unfold all_pairs. rewrite elem_of_app, list_elem_of_bind.
  intros [(n & ? & ?)|?]; eauto.
Qed.

Lemma elem_of_bucket_rows g f l (r : Row) :
  r ∈ bucket_rows g f l ↔ ∃ j, r = f j ∧ g j = Some true ∧ j ∈ l.
Proof.
  unfold bucket_rows, sql_filter. rewrite list_elem_of_fmap.
  by setoid_rewrite list_elem_of_filter.
Qed.

Lemma unique_keys_inj pks (df : DataFrame) (x y : Row) :
  unique_keys pks df → x ∈ rows df → y ∈ rows df →
  key_of pks x = key_of pks y → x = y.
Proof.
  unfold unique_keys. induction (rows df) as [|z l IH]; intros Hnd Hx Hy Heq.
  { by apply elem_of_nil in Hx. }
  rewrite fmap_cons in Hnd. apply NoDup_cons in Hnd as [Hz Hnd].
  apply elem_of_cons in Hx as [->|Hx], Hy as [->|Hy]; [done| | |by apply IH].
  - destruct Hz. rewrite Heq. by apply list_elem_of_fmap_2.
  - destruct Hz. rewrite <- Heq. by apply list_elem_of_fmap_2.
Qed.

Lemma keys_not_null_lookup pks (df : DataFrame) (r : Row) pk :
  keys_not_null pks df → r ∈ rows df → pk ∈ pks → is_Some (r !! pk).
Proof.
  unfold keys_not_null. rewrite Forall_forall. intros Hnn Hr.
  specialize (Hnn r Hr). rewrite Forall_forall in Hnn. apply Hnn.
Qed.

Lemma compared_not_null_lookup (df : DataFrame) (r : Row) :
  compared_not_null df → r ∈ rows df →
  is_Some (r !! "value_col") ∧ is_Some (r !! "another_col").
Proof.
  unfold compared_not_null. rewrite Forall_forall. intros H Hr. by apply H.
Qed.

Lemma using_match_refl pks (df : DataFrame) (n : Row) :
  keys_not_null pks df → n ∈ rows df → using_match pks n n.
Proof.
  intros Hnn Hn. unfold using_match. apply Forall_forall. intros pk Hpk.
  destruct (keys_not_null_lookup pks df n pk) as [v Hv]; [done..|].
  apply sql_eq_true. eauto.
Qed.

Section second_run.
Context (pks : list string) (current_data new_data R : DataFrame) (pk0 : string).
Hypothesis Hrun : final_df current_data new_data pks = inr R.
Hypothesis Hpk : first_key pks = inr pk0.
Hypothesis Hwf_new : rows_wf new_data.
Hypothesis Hwf_cur : rows_wf current_data.
Hypothesis Hnn_cur : keys_not_null pks current_data.

(** Where a row of the reconciled frame comes from. *)
Lemma elem_of_reconciled (r : Row) :
  r ∈ rows R →
  r ∈ rows new_data ∨
  (r ∈ rows current_data ∧
   ∃ n, n ∈ rows new_data ∧ using_match pks n r ∧
        unchanged_cond pk0 (n, r) = Some true).
Proof.
  destruct (final_df_inr _ _ _ _ Hrun) as (pk0' & Hpk' & _ & _ & _ & ->).
  assert (pk0' = pk0) as -> by congruence.
  pose proof Hpk as [rest Hpks]%first_key_inr.
  rewrite !elem_of_app, !elem_of_bucket_rows.
  intros [(j & -> & Hg & Hj)|[(j & -> & Hg & Hj)|(j & -> & Hg & Hj)]];
    apply elem_of_all_pairs in Hj as [(n & Hn & Hj)|Hj].
  - apply elem_of_left_pairs in Hj as [-> _]. left. by rewrite project_wf.
  - apply elem_of_right_only in Hj as [_ Hj]. apply new_cond_true in Hg.
    destruct (keys_not_null_lookup pks current_data j.2 pk0) as [? Hsome];
      [done|done|rewrite Hpks; left|congruence].
  - apply elem_of_left_pairs in Hj as [-> _]. left. by rewrite project_wf.
  - apply elem_of_right_only in Hj as [Hj _].
    apply updated_cond_true in Hg as [[[? H] _] _].
    by rewrite Hj, lookup_empty in H.
  - destruct j as [n' c]. apply elem_of_left_pairs in Hj as [Hj1 Hj2].
    simpl in *. subst n'. destruct Hj2 as [->|[Hc Hm]].
    + by destruct (pad_not_unchanged pk0 n).
    + right. rewrite project_wf by done. eauto.
  - apply elem_of_right_only in Hj as [Hj _].
    apply unchanged_cond_true in Hg as [[[? H] _] _].
    by rewrite Hj, lookup_empty in H.
Qed.

(** Every row of the reconciled frame has its first key cell. *)
Lemma reconciled_first_key (r : Row) :
  keys_not_null pks new_data → r ∈ rows R → is_Some (r !! pk0).
Proof.
  intros Hnn_new Hr. pose proof Hpk as [rest Hpks]%first_key_inr.
  assert (pk0 ∈ pks) as Hin by (rewrite Hpks; left).
  apply elem_of_reconciled in Hr as [Hr|[Hr _]];
    eauto using keys_not_null_lookup.
Qed.

(** Every row of [new_data] has a partner in the reconciled frame. *)
Lemma reconciled_covers (n : Row) :
  keys_not_null pks new_data →
  compared_not_null new_data → compared_not_null current_data →
  n ∈ rows new_data →
  ∃ r, r ∈ rows R ∧ using_match pks n r.
Proof.
  intros Hnn_new Hc_new Hc_cur Hn.
  destruct (final_df_inr _ _ _ _ Hrun) as (pk0' & Hpk' & _ & _ & _ & ->).
  assert (pk0' = pk0) as -> by congruence.
  pose proof Hpk as [rest Hpks]%first_key_inr.
  assert (∀ j, j ∈ left_pairs pks (rows current_data) n →
               j ∈ all_pairs pks current_data new_data) as Hall.
  { intros j Hj. unfold all_pairs. apply elem_of_app. left.
    apply list_elem_of_bind. eauto. }
  destruct (decide (matched_in pks current_data n)) as [Hin|Hout].
  - apply Exists_exists in Hin as (c & Hc & Hm).
    assert ((n, c) ∈ left_pairs pks (rows current_data) n) as Hj.
    { unfold left_pairs.
      assert (c ∈ filter (using_match pks n) (rows current_data)) as Hcf
        by (by apply list_elem_of_filter).
      destruct (filter (using_match pks n) (rows current_data)) as [|c' ms];
        [by apply elem_of_nil in Hcf|].
      by apply list_elem_of_fmap_2. }
    pose proof Hm as Hboth. rewrite Hpks in Hboth.
    apply matched_both_sides in Hboth.
    destruct (compared_not_null_lookup _ _ Hc_new Hn) as [Hnv Hna],
             (compared_not_null_lookup _ _ Hc_cur Hc) as [Hcv Hca].
    destruct (same_or_differs _ _ Hnv Hcv) as [Hv|Hv],
             (same_or_differs _ _ Hna Hca) as [Ha|Ha].
    1:{ exists c. split; [|done]. rewrite !elem_of_app, !elem_of_bucket_rows.
        right; right. exists (n, c). simpl. rewrite project_wf by done.
        repeat split; [|by apply Hall]. by apply unchanged_cond_true. }
    all: exists n; split; [|by eapply using_match_refl].
    all: rewrite !elem_of_app, !elem_of_bucket_rows.
    all: right; left; exists (n, c); simpl; rewrite project_wf by done.
    all: repeat split; [|by apply Hall].
    all: apply updated_cond_true; auto.
  - exists n. split; [|by eapply using_match_refl].
    rewrite !elem_of_app, !elem_of_bucket_rows. left.
    exists (n, ∅). simpl. rewrite project_wf by done.
    split; [done|]. split; [apply pad_new|]. apply Hall.
    rewrite left_pairs_unmatched; [left|].
    intros c Hc Hm. apply Hout, Exists_exists. eauto.
Qed.
End second_run.

Lemma elem_of_left_pairs_matched on (cd_rows : list Row) (n c : Row) j :
  c ∈ cd_rows → using_match on n c →
  j ∈ left_pairs on cd_rows n →
  j.1 = n ∧ j.2 ∈ cd_rows ∧ using_match on n j.2.
Proof.
  intros Hc Hm. unfold left_pairs.
  assert (c ∈ filter (using_match on n) cd_rows) as Hcf
    by (by apply list_elem_of_filter).
  destruct (filter (using_match on n) cd_rows) as [|c' ms] eqn:Hf;
    [by apply elem_of_nil in Hcf|].
  intros (x & -> & Hx)%list_elem_of_fmap. rewrite <- Hf in Hx.
  apply list_elem_of_filter in Hx as [? ?]. auto.
Qed.

Lemma differs_irrefl a : ¬ differs a a.
Proof. by intros (_ & _ & ?). Qed.

(** The idempotence of C7 under the condition the function needs for it:
    when the keys are non-NULL on both sides and distinct in [new_data], and
    no compared cell is NULL, a second run against the reconciled frame with
    the same [new_data] puts no row in the buckets of the new and of the
    updated rows. *)
Lemma second_run_all_unchanged current_data new_data pks R :
  final_df current_data new_data pks = inr R →
  rows_wf new_data → rows_wf current_data →
  unique_keys pks new_data →
  keys_not_null pks new_data → keys_not_null pks current_data →
  compared_not_null new_data → compared_not_null current_data →
  ∃ b, buckets R new_data pks = inr b ∧
       rows (b_new b) = [] ∧ rows (b_updated b) = [].
Proof.
  intros Hrun Hwf_new Hwf_cur Huniq Hnn_new Hnn_cur Hc_new Hc_cur.
  destruct (final_df_inr _ _ _ _ Hrun) as (pk0 & Hpk & Hnd & _ & Hcols & _).
  destruct (final_df_compared_columns _ _ _ _ Hrun) as [[Hv Ha] _].
  pose proof Hpk as [rest Hpks]%first_key_inr.
  destruct (buckets_inr R new_data pks pk0) as (b & Hb & Hbn & Hbu);
    [by rewrite ?Hcols..|].
  exists b. split; [done|]. rewrite Hbn, Hbu.
  assert (∀ n j, n ∈ rows new_data → j ∈ left_pairs pks (rows R) n →
                 j.1 = n ∧ j.2 ∈ rows R ∧ using_match pks n j.2) as Hleft.
  { intros n j Hn Hj.
    destruct (reconciled_covers pks current_data new_data R pk0) with (n := n)
      as (r & Hr & Hm); [done..|].
    by eapply elem_of_left_pairs_matched. }
  split; apply elem_of_nil_inv; intros r (j & -> & Hg & Hj)%elem_of_bucket_rows;
    apply elem_of_all_pairs in Hj as [(n & Hn & Hj)|Hj].
  - destruct (Hleft n j Hn Hj) as (_ & _ & Hm). rewrite Hpks in Hm.
    apply matched_both_sides in Hm as [_ [? Hsome]].
    apply new_cond_true in Hg. congruence.
  - apply elem_of_right_only in Hj as [_ Hj]. apply new_cond_true in Hg.
    destruct (reconciled_first_key pks current_data new_data R pk0) with (r := j.2)
      as [? Hsome]; [done..|congruence].
  - destruct j as [n' r]. destruct (Hleft n _ Hn Hj) as (Hj1 & Hr & Hm).
    simpl in *. subst n'.
    apply updated_cond_true in Hg as [_ Hd]. simpl in Hd.
    destruct (elem_of_reconciled pks current_data new_data R pk0) with (r := r)
      as [Hrn|(Hrc & n' & Hn' & Hm' & Hun)]; [done..| |].
    + assert (n = r) as <-.
      { apply (unique_keys_inj pks new_data); [done..|].
        by apply using_match_key_eq. }
      destruct Hd as [Hd|Hd]; by apply differs_irrefl in Hd.
    + assert (n' = n) as ->.
      { apply (unique_keys_inj pks new_data); [done..|].
        apply using_match_key_eq in Hm, Hm'. congruence. }
      apply unchanged_cond_true in Hun as (_ & ? & ?). simpl in *.
      destruct Hd as [Hd|Hd]; eauto using differs_not_same.
  - apply elem_of_right_only in Hj as [Hj _].
    apply updated_cond_true in Hg as [[[? H] _] _].
    by rewrite Hj, lookup_empty in H.
Qed.

(** ** When a run succeeds, and what it writes *)

(** The run reaches the write when the key list is not empty and has no
    repeated name, the two frames have the same columns, each once, the key
    columns among them, and the two compared columns exist. *)
Lemma final_df_succeeds current_data new_data pks :
  pks ≠ [] → NoDup pks → pks ⊆ columns new_data →
  NoDup (columns new_data) → NoDup (columns current_data) →
  columns new_data ⊆ columns current_data →
  columns current_data ⊆ columns new_data →
  "value_col" ∈ columns new_data → "another_col" ∈ columns new_data →
  ∃ R, final_df current_data new_data pks = inr R.
Proof.
  intros Hne Hnd Hsub Hnew Hcur Hnc Hcn Hv Ha.
  destruct pks as [|pk0 rest] eqn:Hpks; [done|]. rewrite <- Hpks in *.
  assert (pk0 ∈ pks) as Hin by (rewrite Hpks; left).
  assert (first_key pks = inr pk0) as Hpk by (by rewrite Hpks).
  set (sel := (pks ++ filter (λ c, c ∉ pks) (columns new_data))%list).
  assert (∀ c, c ∈ sel ↔ c ∈ columns new_data) as Hsel
    by (intros c; by apply selected_columns).
  assert (NoDup sel) as Hndsel.
  { apply NoDup_app. repeat split; [done| |by apply NoDup_filter].
    intros c Hc [Hc' _]%list_elem_of_filter. done. }
  unfold final_df, buckets, joined_df, join_fullouter.
  rewrite decide_True by (split; [done|by etrans]). simpl.
  unfold updated_rows, new_rows, unchanged_rows, resolve_compared, resolve_all, resolve.
  rewrite Hpk. simpl. fold sel.
  rewrite !decide_True; simpl; auto.
  2:{ intros c. apply Hsel. }
  unfold unionByName. simpl.
  rewrite decide_True; simpl.
  2:{ repeat split; [done..| |]; intros c; apply Hsel. }
  rewrite decide_True; simpl; eauto.
Qed.



(** ** Which runs reach the write, and which exception the others raise *)

Lemma selected_columns_NoDup pks (cols : list string) :
  NoDup (pks ++ filter (λ c, c ∉ pks) cols)%list → NoDup pks.
Proof. by intros [? _]%NoDup_app. Qed.

(** What the checks of a successful run have established. *)
Lemma final_df_inr_schema current_data new_data pks R :
  final_df current_data new_data pks = inr R →
  pks ≠ [] ∧ NoDup pks ∧ pks ⊆ columns new_data ∧
  NoDup (columns new_data) ∧ NoDup (columns current_data) ∧
  columns new_data ⊆ columns current_data ∧
  columns current_data ⊆ columns new_data.
Proof.
  unfold final_df, buckets, joined_df, join_fullouter.
  case_decide as Hon; [|done]. destruct Hon as [Hnd Hcd].
  unfold updated_rows, new_rows, unchanged_rows, resolve_compared, resolve_all.
  simpl.
  destruct (first_key pks) as [|pk0] eqn:Hpk0; [done|]. simpl.
  repeat (match goal with
          | |- context [resolve ?cols ?c] =>
              destruct (resolve cols c) eqn:?; simpl; [done|]
          end).
  case_decide; [|done]. simpl.
  unfold unionByName. simpl.
  case_decide as Hu1; [|done]. simpl.
  case_decide as Hu2; [|done]. simpl.
  intros _. destruct Hu1 as (Hnew & Hsel & _), Hu2 as (_ & Hcur & Hnc & Hcn).
  apply first_key_inr in Hpk0 as [rest ->].
  repeat split; try done. by eapply selected_columns_NoDup.
Qed.

(** The exception of a run that does not reach the union. *)
Lemma final_df_inl current_data new_data pks e :
  final_df current_data new_data pks = inl e →
  (pks = [] ∧ e = IndexError) ∨ (pks ≠ [] ∧ e = AnalysisException).
Proof.
  unfold final_df, buckets, joined_df, join_fullouter.
  destruct pks as [|pk0 rest].
  { rewrite decide_True by (split; apply list_subseteq_nil).
    simpl. intros [= <-]. by left. }
  intros He. right. split; [done|]. revert He.
  case_decide; [|by intros [= <-]].
  unfold updated_rows, new_rows, unchanged_rows, resolve_compared, resolve_all,
    resolve, unionByName.
  simpl.
  repeat (match goal with
          | |- context [decide ?P] =>
              destruct (decide P); simpl; [|by intros [= <-]]
          end).
  done.
Qed.


(** X2: [IndexError] is the exception of the empty key list and of nothing
    else; any other exception on the way to the union is an
    [AnalysisException]. *)
Theorem index_error_iff_no_key current_data new_data pks :
  (final_df current_data new_data pks = inl IndexError ↔ pks = []) ∧
  (∀ e, final_df current_data new_data pks = inl e →
        e = IndexError ∨ e = AnalysisException).
Proof.
  split; [split|].
  - intros [[? _]|[_ ?]]%final_df_inl; done.
  - intros ->. unfold final_df, buckets, joined_df, join_fullouter.
    rewrite decide_True; [done|]. split; apply list_subseteq_nil.
  - intros e [[_ ->]|[_ ->]]%final_df_inl; auto.
Qed.








(** X6: when the run reaches the write and one of the three connection
    properties is missing, the call raises [KeyError] for a missing
    property and leaves the destination and the output as they were. *)
Theorem missing_property_raises current_data new_data pks R
    url table (properties : gmap string string) k w :
  final_df current_data new_data pks = inr R →
  k ∈ ["user"; "password"; "driver"] →
  properties !! k = None →
  ∃ k', properties !! k' = None ∧
        update_and_load_to_aurora current_data new_data pks url table properties w
        = (inl (KeyError k'), w).
Proof.
  intros Hrun Hk Hnone.
  unfold update_and_load_to_aurora, dict_get. rewrite Hrun. simpl.
  destruct (properties !! "user") as [u|] eqn:Hu; simpl; [|by exists "user"].
  destruct (properties !! "password") as [p|] eqn:Hp; simpl;
    [|by exists "password"].
  destruct (properties !! "driver") as [d|] eqn:Hd; simpl;
    [|by exists "driver"].
  rewrite !elem_of_cons, elem_of_nil in Hk.
  destruct Hk as [->|[->|[->|[]]]]; congruence.
Qed.

Lemma missing_property_raises_witness :
  ∃ k', delete "password" sample_properties !! k' = None ∧
        update_and_load_to_aurora sample_current sample_new ["id"]
          sample_url sample_table (delete "password" sample_properties) open_world
        = (inl (KeyError k'), open_world).
Proof.
  apply (missing_property_raises _ _ _ sample_reconciled _ _ _ "password");
    [by vm_compute | by_compute | by vm_compute].
Defined.

(** X7: the call prints its line exactly when it has written: a call that
    returns has replaced the table behind its URL and name by the
    reconciled frame, kept every other table, and printed one line; a call
    that raises has printed nothing, and unless the destination refused the
    write it has changed nothing. *)
Theorem run_outcome current_data new_data pks
    url table (properties : gmap string string) w :
  let out :=
    update_and_load_to_aurora current_data new_data pks url table properties w in
  match out.1 with
  | inr _ =>
      ∃ R, final_df current_data new_data pks = inr R ∧
           tables out.2 = <[(url, table) := R]> (tables w) ∧
           stdout out.2 = (stdout w ++ [success_line table])%list
  | inl e =>
      stdout out.2 = stdout w ∧ (e ≠ JdbcError → out.2 = w)
  end.
Proof.
  unfold update_and_load_to_aurora, dict_get, jdbc_overwrite. simpl.
  destruct (final_df current_data new_data pks) as [e|R]; simpl; [done|].
  destruct (properties !! "user"); simpl; [|done].
  destruct (properties !! "password"); simpl; [|done].
  destruct (properties !! "driver"); simpl; [|done].
  destruct (jdbc_accepts w url _ _ _); simpl; [|done].
  by exists R.
Qed.

(** ** The shape of the reconciled frame *)

Lemma project_in_schema cols cols' (r : Row) :
  cols ⊆ cols' → map_Forall (λ c _, c ∈ cols') (project cols r).
Proof.
  intros Hsub c v [_ Hc]%map_lookup_filter_Some. apply Hsub, Hc.
Qed.

Lemma length_reconciled current_data new_data pks R pk0 :
  final_df current_data new_data pks = inr R →
  first_key pks = inr pk0 →
  length (rows R) = tally pk0 (all_pairs pks current_data new_data).
Proof.
  intros Hrun Hpk.
  destruct (final_df_inr _ _ _ _ Hrun) as (pk0' & Hpk' & _ & _ & _ & ->).
  assert (pk0' = pk0) as -> by congruence.
  unfold bucket_rows, tally. rewrite !length_app, !length_fmap. lia.
Qed.

(** X8: the reconciled frame has the column names of [new_data], each
    once (in whatever order the engine lists them), and each of its rows
    binds columns of that schema only, also the rows taken from
    [current_data]. *)
Theorem reconciled_schema current_data new_data pks R :
  final_df current_data new_data pks = inr R →
  columns R ≡ₚ columns new_data ∧ NoDup (columns R) ∧ rows_wf R.
Proof.
  intros Hrun.
  destruct (final_df_inr _ _ _ _ Hrun) as (pk0 & _ & _ & _ & Hcols & Hrows).
  destruct (final_df_inr_schema _ _ _ _ Hrun) as (_&_&_&Hnd&_&_&Hcn).
  split; [by rewrite Hcols|]. split; [by rewrite Hcols|].
  unfold rows_wf. rewrite Hcols, Hrows.
  rewrite !Forall_app. unfold bucket_rows.
  repeat split; apply Forall_fmap, Forall_forall; intros j _;
    by apply project_in_schema.
Qed.

Lemma reconciled_schema_witness :
  columns sample_reconciled ≡ₚ columns sample_new ∧
  NoDup (columns sample_reconciled) ∧ rows_wf sample_reconciled.
Proof.
  apply (reconciled_schema sample_current sample_new ["id"]). by vm_compute.
Defined.

(** X9: the function makes up no values: a row of the reconciled frame is a
    row of [new_data], a row of [current_data], or the all-NULL row. *)
Theorem reconciled_rows_come_from_inputs current_data new_data pks R (r : Row) :
  final_df current_data new_data pks = inr R →
  rows_wf new_data → rows_wf current_data →
  r ∈ rows R →
  r ∈ rows new_data ∨ r ∈ rows current_data ∨ r = ∅.
Proof.
  intros Hrun Hwf_new Hwf_cur.
  destruct (final_df_inr _ _ _ _ Hrun) as (pk0 & _ & _ & _ & _ & ->).
  assert (∀ j, j ∈ all_pairs pks current_data new_data →
               (j.1 ∈ rows new_data ∨ j.1 = ∅) ∧
               (j.2 ∈ rows current_data ∨ j.2 = ∅)) as Hsides.
  { intros j [(n & Hn & Hj)|Hj]%elem_of_all_pairs.
    - apply elem_of_left_pairs in Hj as [-> [->|[? _]]]; auto.
    - apply elem_of_right_only in Hj as [-> ?]; auto. }
  rewrite !elem_of_app, !elem_of_bucket_rows.
  intros [(j & -> & _ & Hj)|[(j & -> & _ & Hj)|(j & -> & _ & Hj)]];
    destruct (Hsides j Hj) as [[H1|H1] [H2|H2]];
    rewrite ?H1, ?H2, ?project_empty, ?project_wf by done; auto.
Qed.

Lemma reconciled_rows_come_from_inputs_witness :
  sample_row 4 (Some "d") (Some "y") (Some "old") ∈ rows sample_new ∨
  sample_row 4 (Some "d") (Some "y") (Some "old") ∈ rows sample_current ∨
  sample_row 4 (Some "d") (Some "y") (Some "old") = ∅.
Proof.
  apply (reconciled_rows_come_from_inputs sample_current sample_new ["id"]
           sample_reconciled);
    [by vm_compute | by_compute..].
Defined.

(** ** Empty frames *)

(** X10: an empty batch empties the table: with no row in [new_data] and no
    NULL key cell in [current_data], the reconciled frame has no row. *)
Theorem empty_new_data_empties current_data new_data pks R :
  final_df current_data new_data pks = inr R →
  rows new_data = [] →
  keys_not_null pks current_data →
  rows R = [].
Proof.
  intros Hrun Hnew Hnn.
  destruct (final_df_inr _ _ _ _ Hrun) as (pk0 & Hpk & _).
  apply length_zero_iff_nil.
  rewrite (length_reconciled _ _ _ _ pk0 Hrun Hpk).
  unfold all_pairs. rewrite Hnew. simpl. rewrite <- Hnew.
  apply tally_right_only; [done|].
  apply first_key_inr in Hpk as [rest ->]. left.
Qed.

Lemma empty_new_data_empties_witness : rows (mkDF schema []) = [].
Proof.
  apply (empty_new_data_empties sample_current empty_frame ["id"]);
    [by vm_compute | done | by_compute].
Defined.

Lemma first_load_buckets on pk0 cols (l : list Row) :
  bucket_rows (new_cond pk0) (λ j, project cols j.1) (l ≫= left_pairs on [])
  = project cols <$> l ∧
  ∀ g f, (∀ n : Row, g (n, ∅) ≠ Some true) →
         bucket_rows g f (l ≫= left_pairs on []) = [].
Proof.
  split.
  - induction l as [|n l IH]; [done|].
    rewrite bind_cons, bucket_rows_app, IH. unfold left_pairs at 1.
    rewrite filter_nil, bucket_rows_singleton, decide_True by apply pad_new.
    done.
  - intros g f Hg. induction l as [|n l IH]; [done|].
    rewrite bind_cons, bucket_rows_app, IH. unfold left_pairs at 1.
    rewrite filter_nil, bucket_rows_singleton, decide_False by apply Hg.
    done.
Qed.

Lemma project_wf_all (df : DataFrame) :
  rows_wf df → project (columns df) <$> rows df = rows df.
Proof.
  intros Hwf. rewrite <- (list_fmap_id (rows df)) at 2.
  apply list_fmap_ext. intros i r Hr. apply project_wf; [done|].
  by eapply list_elem_of_lookup_2.
Qed.

(** X11: a first load inserts everything: with no row in [current_data],
    the reconciled frame holds the rows of [new_data], each as often as
    [new_data] has it and no other row, whatever their keys and compared
    cells are. *)
Theorem first_load_inserts_all current_data new_data pks R :
  final_df current_data new_data pks = inr R →
  rows current_data = [] →
  rows_wf new_data →
  rows R ≡ₚ rows new_data.
Proof.
  intros Hrun Hcur Hwf.
  destruct (final_df_inr _ _ _ _ Hrun) as (pk0 & _ & _ & _ & _ & ->).
  unfold all_pairs, right_only. rewrite Hcur, filter_nil, fmap_nil, app_nil_r.
  destruct (first_load_buckets pks pk0 (columns new_data) (rows new_data))
    as [-> Hnone].
  rewrite !Hnone by (intros; apply pad_not_updated || apply pad_not_unchanged).
  rewrite !app_nil_r. by rewrite project_wf_all.
Qed.

Lemma first_load_inserts_all_witness :
  rows sample_new ≡ₚ rows sample_new.
Proof.
  apply (first_load_inserts_all empty_frame sample_new ["id"] sample_new);
    [by vm_compute | done | by_compute].
Defined.

(** ** NULL key cells *)

(** X12: a row of [new_data] with a NULL key cell has no partner and is
    inserted by every run, whatever [current_data] holds. *)
Theorem null_key_new_row_always_inserted current_data new_data pks R (n : Row) pk :
  final_df current_data new_data pks = inr R →
  rows_wf new_data →
  n ∈ rows new_data → pk ∈ pks → n !! pk = None →
  n ∈ rows R.
Proof.
  intros Hrun Hwf Hn Hpk Hnone.
  destruct (final_df_inr _ _ _ _ Hrun) as (pk0 & _ & _ & _ & _ & ->).
  rewrite !elem_of_app, !elem_of_bucket_rows. left.
  exists (n, ∅). simpl. rewrite project_wf by done.
  split; [done|]. split; [apply pad_new|].
  unfold all_pairs. apply elem_of_app. left. apply list_elem_of_bind.
  exists n. split; [|done].
  rewrite left_pairs_unmatched; [left|].
  intros c _ Hm. destruct (using_match_not_null pks n c pk Hm Hpk) as [[? ?] _].
  congruence.
Qed.

Lemma null_key_new_row_always_inserted_witness :
  cell "value_col" (Some "a") ∪ cell "another_col" (Some "x")
  ∈ rows (mkDF schema [cell "value_col" (Some "a") ∪ cell "another_col" (Some "x")]).
Proof.
  apply (null_key_new_row_always_inserted sample_current null_key_current
           ["id"] _ _ "id");
    [by vm_compute | by_compute | by_compute | by_compute | by vm_compute].
Defined.

(** X13: a row of [current_data] whose first key cell is NULL has no
    partner, passes the filter of the new rows and leaves the all-NULL row
    in the reconciled frame. *)
Theorem null_key_current_row_leaves_null_row current_data new_data pks R pk0 (c : Row) :
  final_df current_data new_data pks = inr R →
  first_key pks = inr pk0 →
  c ∈ rows current_data → c !! pk0 = None →
  ∅ ∈ rows R.
Proof.
  intros Hrun Hpk Hc Hnone.
  destruct (final_df_inr _ _ _ _ Hrun) as (pk0' & Hpk' & _ & _ & _ & ->).
  assert (pk0' = pk0) as -> by congruence.
  apply first_key_inr in Hpk as [rest ->].
  rewrite !elem_of_app, !elem_of_bucket_rows. left.
  exists (∅, c). simpl. rewrite project_empty.
  split; [done|]. split; [by apply new_cond_true|].
  unfold all_pairs, right_only. apply elem_of_app. right.
  apply list_elem_of_fmap_2, list_elem_of_filter. split; [|done].
  apply Forall_forall. intros n _ Hm.
  apply matched_both_sides in Hm as [_ [? ?]]. congruence.
Qed.

Lemma null_key_current_row_leaves_null_row_witness :
  (∅ : Row) ∈ rows (mkDF schema [∅]).
Proof.
  apply (null_key_current_row_leaves_null_row null_key_current empty_frame
           ["id"] _ "id"
           (cell "value_col" (Some "a") ∪ cell "another_col" (Some "x")));
    [by vm_compute | done | by_compute | by vm_compute].
Defined.

(** ** Row count and key uniqueness of the reconciled frame *)

Lemma filter_partition_length {A} (P : A → Prop) `{!∀ x, Decision (P x)}
    (l : list A) :
  length (filter (λ x, ¬ P x) l) + length (filter P l) = length l.
Proof.
  induction l as [|x l IH]; [done|].
  rewrite !filter_cons. destruct (decide (P x)).
  - rewrite decide_False by tauto. simpl. lia.
  - rewrite decide_True by done. simpl. lia.
Qed.

(** X14: when the keys of [current_data] are distinct and non-NULL and no
    compared cell of either frame is NULL, the reconciled frame has as many
    rows as [new_data]. *)
Theorem one_row_per_new_row current_data new_data pks R :
  final_df current_data new_data pks = inr R →
  unique_keys pks current_data → keys_not_null pks current_data →
  compared_not_null new_data → compared_not_null current_data →
  length (rows R) = length (rows new_data).
Proof.
  intros Hrun Huniq Hnn Hc_new Hc_cur.
  rewrite (row_count_law current_data new_data pks R); [|done..|].
  - apply filter_partition_length.
  - intros n c Hn Hc _ Hnull.
    destruct (compared_not_null_lookup _ _ Hc_new Hn) as [[? ?] [? ?]],
             (compared_not_null_lookup _ _ Hc_cur Hc) as [[? ?] [? ?]].
    unfold compared_null in Hnull. destruct Hnull as [?|[?|[?|?]]]; congruence.
Qed.

Lemma one_row_per_new_row_witness :
  length (rows sample_reconciled) = length (rows sample_new).
Proof.
  apply (one_row_per_new_row sample_current sample_new ["id"]);
    [by vm_compute | by_compute..].
Defined.

Lemma NoDup_three_filters {A K} (key : A → K) (P1 P2 P3 : A → Prop)
    `{!∀ x, Decision (P1 x), !∀ x, Decision (P2 x), !∀ x, Decision (P3 x)}
    (l : list A) :
  NoDup (key <$> l) →
  (∀ x, x ∈ l → ¬ (P1 x ∧ P2 x) ∧ ¬ (P1 x ∧ P3 x) ∧ ¬ (P2 x ∧ P3 x)) →
  NoDup ((key <$> filter P1 l) ++ (key <$> filter P2 l)
         ++ (key <$> filter P3 l)).
Proof.
  induction l as [|x l IH]; intros Hnd Hdis; [constructor|].
  rewrite fmap_cons in Hnd. apply NoDup_cons in Hnd as [Hx Hnd].
  assert (NoDup ((key <$> filter P1 l) ++ (key <$> filter P2 l)
                 ++ (key <$> filter P3 l))) as Hl.
  { apply IH; [done|]. intros y Hy. apply Hdis. by right. }
  assert (key x ∉ ((key <$> filter P1 l) ++ (key <$> filter P2 l)
                   ++ (key <$> filter P3 l))%list) as Hfresh.
  { rewrite !elem_of_app, !list_elem_of_fmap.
    intros [(y & ? & Hy)|[(y & ? & Hy)|(y & ? & Hy)]];
      apply list_elem_of_filter in Hy as [_ Hy];
      apply Hx, list_elem_of_fmap; eauto. }
  destruct (Hdis x) as (H12 & H13 & H23); [left|].
  rewrite !filter_cons.
  destruct (decide (P1 x)), (decide (P2 x)), (decide (P3 x));
    try tauto; rewrite ?fmap_cons.
  - simpl. by apply NoDup_cons.
  - rewrite <- app_comm_cons, <- Permutation_middle. by apply NoDup_cons.
  - rewrite (assoc_L (++)), <- Permutation_middle, <- (assoc_L (++)).
    by apply NoDup_cons.
Qed.

Lemma right_only_no_bucket pks pk0 (current_data new_data : DataFrame) :
  keys_not_null pks current_data → pk0 ∈ pks →
  sql_filter (new_cond pk0) (right_only pks (rows new_data) (rows current_data)) = [] ∧
  sql_filter (updated_cond pk0) (right_only pks (rows new_data) (rows current_data)) = [] ∧
  sql_filter (unchanged_cond pk0) (right_only pks (rows new_data) (rows current_data)) = [].
Proof.
  intros Hnn Hpk. pose proof (tally_right_only pks pk0 _ new_data Hnn Hpk) as Ht.
  unfold tally in Ht. repeat split; apply length_zero_iff_nil; lia.
Qed.

Lemma left_pairs_keys pks (current_data : DataFrame) (l : list Row) :
  unique_keys pks current_data →
  (λ j : Row * Row, key_of pks j.1) <$> (l ≫= left_pairs pks (rows current_data))
  = key_of pks <$> l.
Proof.
  intros Huniq. induction l as [|n l IH]; [done|].
  rewrite bind_cons, fmap_app, IH, fmap_cons. f_equal.
  destruct (decide (matched_in pks current_data n)) as [Hin|Hout].
  - by destruct (matched_in_unique pks current_data n) as (c & _ & _ & ->).
  - rewrite left_pairs_unmatched; [done|].
    intros c Hc Hm. apply Hout, Exists_exists. eauto.
Qed.

Lemma final_df_unique_keys current_data new_data pks R :
  final_df current_data new_data pks = inr R →
  unique_keys pks new_data → unique_keys pks current_data →
  keys_not_null pks current_data →
  unique_keys pks R.
Proof.
  intros Hrun Hnew Hcur Hnn.
  destruct (final_df_inr _ _ _ _ Hrun) as (pk0 & Hpk & Hnd & Hcd & _ & Hrows).
  pose proof Hpk as [rest Hpks]%first_key_inr.
  assert (pk0 ∈ pks) as Hin by (rewrite Hpks; left).
  destruct (right_only_no_bucket pks pk0 current_data new_data Hnn Hin)
    as (Hr1 & Hr2 & Hr3).
  set (PL := rows new_data ≫= left_pairs pks (rows current_data)).
  assert (∀ g f,
    sql_filter g (right_only pks (rows new_data) (rows current_data)) = [] →
    (∀ j, j ∈ PL → g j = Some true → key_of pks (f j) = key_of pks j.1) →
    key_of pks <$> bucket_rows g f (all_pairs pks current_data new_data)
    = (λ j : Row * Row, key_of pks j.1) <$> filter (λ j, g j = Some true) PL)
    as Hb.
  { intros g f Hro Hkey. unfold bucket_rows, all_pairs, sql_filter in *.
    fold PL. rewrite filter_app, Hro, app_nil_r, <- list_fmap_compose.
    apply list_fmap_ext. intros i j Hj.
    apply list_elem_of_lookup_2, list_elem_of_filter in Hj as [? ?].
    simpl. auto. }
  unfold unique_keys. rewrite Hrows, !fmap_app.
  rewrite !Hb; [| done | | done | | done |].
  - apply NoDup_three_filters.
    + unfold PL. by rewrite left_pairs_keys.
    + intros j _. apply buckets_disjoint.
  - intros j (n & Hj & Hn)%list_elem_of_bind Hg.
    destruct j as [n' c]. apply elem_of_left_pairs in Hj as [Hj1 Hj2].
    simpl in *. subst n'. destruct Hj2 as [->|[_ Hm]].
    + by destruct (pad_not_unchanged pk0 n).
    + rewrite key_of_project by done. symmetry. by apply using_match_key_eq.
  - intros j _ _. by apply key_of_project.
  - intros j _ _. by apply key_of_project.
Qed.

(** X15: the reconciled frame keeps the key constraint: when the keys are
    distinct in both frames and non-NULL in [current_data], no two rows of
    the reconciled frame have the same key cells, so the written table can
    be the [current_data] of the next run. *)
Theorem reconciled_keys_unique current_data new_data pks R :
  final_df current_data new_data pks = inr R →
  unique_keys pks new_data → unique_keys pks current_data →
  keys_not_null pks current_data →
  unique_keys pks R.
Proof. apply final_df_unique_keys. Qed.

Lemma reconciled_keys_unique_witness : unique_keys ["id"] sample_reconciled.
Proof.
  apply (reconciled_keys_unique sample_current sample_new);
    [by vm_compute | by_compute..].
Defined.

(** X16: when the keys are non-NULL on both sides and distinct in
    [new_data], and no compared cell is NULL, a second run with the same
    [new_data] against the reconciled frame of the first puts no row in the
    buckets of the new and of the updated rows. *)
Theorem second_run_changes_nothing current_data new_data pks R :
  final_df current_data new_data pks = inr R →
  rows_wf new_data → rows_wf current_data →
  unique_keys pks new_data →
  keys_not_null pks new_data → keys_not_null pks current_data →
  compared_not_null new_data → compared_not_null current_data →
  ∃ b, buckets R new_data pks = inr b ∧
       rows (b_new b) = [] ∧ rows (b_updated b) = [].
Proof. apply second_run_all_unchanged. Qed.

Lemma second_run_changes_nothing_witness :
  ∃ b, buckets sample_reconciled sample_new ["id"] = inr b ∧
       rows (b_new b) = [] ∧ rows (b_updated b) = [].
Proof.
  apply (second_run_changes_nothing sample_current sample_new);
    [by vm_compute | by_compute..].
Defined.

(** ** The second run writes the same rows *)

Lemma bucket_rows_nil_filter g f l :
  bucket_rows g f l = [] → sql_filter g l = [].
Proof. unfold bucket_rows. apply fmap_nil_inv. Qed.

Lemma elem_of_left_pairs_intro on (cd_rows : list Row) (n c : Row) :
  c ∈ cd_rows → using_match on n c → (n, c) ∈ left_pairs on cd_rows n.
Proof.
  intros Hc Hm. unfold left_pairs.
  assert (c ∈ filter (using_match on n) cd_rows) as Hcf
    by (by apply list_elem_of_filter).
  destruct (filter (using_match on n) cd_rows) as [|c' ms];
    [by apply elem_of_nil in Hcf|].
  by apply list_elem_of_fmap_2.
Qed.

Section rerun.
Context (pks : list string) (current_data new_data R : DataFrame) (pk0 : string).
Hypothesis Hrun : final_df current_data new_data pks = inr R.
Hypothesis Hpk : first_key pks = inr pk0.
Hypothesis Hwf_new : rows_wf new_data.
Hypothesis Hwf_cur : rows_wf current_data.
Hypothesis Hnn_new : keys_not_null pks new_data.
Hypothesis Hnn_cur : keys_not_null pks current_data.
Hypothesis Hc_new : compared_not_null new_data.
Hypothesis Hc_cur : compared_not_null current_data.

Lemma reconciled_keys_not_null : keys_not_null pks R.
Proof.
  apply Forall_forall. intros r Hr. apply Forall_forall. intros pk Hin.
  destruct (elem_of_reconciled pks current_data new_data R pk0) with (r := r)
    as [?|[? _]]; [done..| |]; eauto using keys_not_null_lookup.
Qed.

Lemma reconciled_project (r : Row) :
  r ∈ rows R → project (columns R) r = r.
Proof.
  intros Hr.
  destruct (final_df_inr _ _ _ _ Hrun) as (_ & _ & _ & _ & Hcols & _).
  destruct (final_df_inr_schema _ _ _ _ Hrun) as (_&_&_&_&_&_&Hcn).
  rewrite Hcols.
  destruct (elem_of_reconciled pks current_data new_data R pk0) with (r := r)
    as [Hn|[Hc _]]; [done..| |].
  - by apply project_wf.
  - apply project_id. intros c [v Hv]. apply Hcn.
    unfold rows_wf in Hwf_cur. rewrite Forall_forall in Hwf_cur.
    by apply (Hwf_cur r Hc c v).
Qed.

(** Each row of the reconciled frame is the partner of a row of [new_data]
    and passes, with it, the filter of the unchanged rows. *)
Lemma reconciled_row_unchanged (r : Row) :
  r ∈ rows R →
  ∃ n, n ∈ rows new_data ∧ using_match pks n r ∧
       unchanged_cond pk0 (n, r) = Some true.
Proof.
  intros Hr. pose proof Hpk as [rest Hpks]%first_key_inr.
  destruct (elem_of_reconciled pks current_data new_data R pk0) with (r := r)
    as [Hn|(_ & n & ? & ? & ?)]; [done..| |by eauto].
  exists r. split; [done|].
  assert (using_match pks r r) as Hm by (by apply (using_match_refl pks new_data)).
  split; [done|].
  destruct (compared_not_null_lookup _ _ Hc_new Hn) as [? ?].
  rewrite Hpks in Hm. apply matched_both_sides in Hm.
  apply unchanged_cond_true. simpl. unfold same. tauto.
Qed.
End rerun.

Lemma final_df_rerun current_data new_data pks R :
  final_df current_data new_data pks = inr R →
  rows_wf new_data → rows_wf current_data →
  unique_keys pks new_data → unique_keys pks current_data →
  keys_not_null pks new_data → keys_not_null pks current_data →
  compared_not_null new_data → compared_not_null current_data →
  ∃ R2, final_df R new_data pks = inr R2 ∧ rows R2 ≡ₚ rows R.
Proof.
  intros Hrun Hwf_new Hwf_cur Hu_new Hu_cur Hnn_new Hnn_cur Hc_new Hc_cur.
  destruct (final_df_inr _ _ _ _ Hrun) as (pk0 & Hpk & Hnd & _ & Hcols & _).
  destruct (final_df_inr_schema _ _ _ _ Hrun) as (Hne&Hndp&_&Hndn&_&_&_).
  destruct (final_df_compared_columns _ _ _ _ Hrun) as [[Hv Ha] _].
  pose proof Hpk as [rest Hpks]%first_key_inr.
  assert (unique_keys pks R) as Hu_R by (by eapply final_df_unique_keys).
  assert (keys_not_null pks R) as Hnn_R by (by eapply reconciled_keys_not_null).
  destruct (final_df_succeeds R new_data pks) as [R2 Hrun2];
    [by rewrite ?Hcols..|].
  exists R2. split; [done|].
  assert (unique_keys pks R2) as Hu_R2 by (by eapply final_df_unique_keys).
  (* the second run takes rows from the bucket of the unchanged rows only *)
  destruct (second_run_all_unchanged _ _ _ _ Hrun) as (b & Hb & Hbn & Hbu);
    [done..|].
  destruct (buckets_inr R new_data pks pk0) as (b' & Hb' & Hbn' & Hbu');
    [by rewrite ?Hcols..|].
  assert (b' = b) as -> by congruence.
  rewrite Hbn' in Hbn. rewrite Hbu' in Hbu.
  apply bucket_rows_nil_filter in Hbn, Hbu.
  destruct (final_df_inr _ _ _ _ Hrun2) as (pk0' & Hpk' & _ & _ & _ & Hrows2).
  assert (pk0' = pk0) as -> by congruence.
  unfold bucket_rows in Hrows2. rewrite Hbn, Hbu in Hrows2. simpl in Hrows2.
  apply NoDup_Permutation.
  - unfold unique_keys in Hu_R2. by apply NoDup_fmap_1 in Hu_R2.
  - unfold unique_keys in Hu_R. by apply NoDup_fmap_1 in Hu_R.
  - intros r. rewrite Hrows2, list_elem_of_fmap. split.
    + intros (j & -> & [Hg Hj]%list_elem_of_filter).
      apply elem_of_all_pairs in Hj as [(n & Hn & Hj)|Hj].
      * destruct j as [n' c]. apply elem_of_left_pairs in Hj as [Hj1 Hj2].
        simpl in *. subst n'. destruct Hj2 as [->|[Hc _]].
        { by destruct (pad_not_unchanged pk0 n). }
        by rewrite (reconciled_project pks current_data new_data R pk0).
      * apply elem_of_right_only in Hj as [Hj _].
        apply unchanged_cond_true in Hg as [[[? H] _] _].
        by rewrite Hj, lookup_empty in H.
    + intros Hr.
      destruct (reconciled_row_unchanged pks current_data new_data R pk0)
        with (r := r) as (n & Hn & Hm & Hun); [done..|].
      exists (n, r). simpl.
      split; [by rewrite (reconciled_project pks current_data new_data R pk0)|].
      apply list_elem_of_filter. split; [done|].
      unfold all_pairs. apply elem_of_app. left. apply list_elem_of_bind.
      exists n. split; [|done]. by apply elem_of_left_pairs_intro.
Qed.

(** X17: when the keys are distinct and non-NULL in both frames and no
    compared cell is NULL, a second run with the same [new_data] against the
    reconciled frame of the first reaches the write again and writes the
    same rows, up to their order. *)
Theorem second_run_writes_same_rows current_data new_data pks R :
  final_df current_data new_data pks = inr R →
  rows_wf new_data → rows_wf current_data →
  unique_keys pks new_data → unique_keys pks current_data →
  keys_not_null pks new_data → keys_not_null pks current_data →
  compared_not_null new_data → compared_not_null current_data →
  ∃ R2, final_df R new_data pks = inr R2 ∧ rows R2 ≡ₚ rows R.
Proof. apply final_df_rerun. Qed.

Lemma second_run_writes_same_rows_witness :
  ∃ R2, final_df sample_reconciled sample_new ["id"] = inr R2 ∧
        rows R2 ≡ₚ rows sample_reconciled.
Proof.
  apply (second_run_writes_same_rows sample_current sample_new);
    [by vm_compute | by_compute..].
Defined.

(** ** What the bucket of the unchanged rows never holds *)

Lemma buckets_inr_unchanged current_data new_data pks b :
  buckets current_data new_data pks = inr b →
  ∃ pk0,
    first_key pks = inr pk0 ∧
    "value_col" ∈ columns current_data ∧ "another_col" ∈ columns current_data ∧
    rows (b_unchanged b)
    = bucket_rows (unchanged_cond pk0) (λ j, project (columns current_data) j.2)
        (all_pairs pks current_data new_data).
Proof.
  unfold buckets, joined_df, join_fullouter.
  case_decide as Hon; [|done].
  unfold updated_rows, new_rows, unchanged_rows, resolve_compared, resolve_all.
  simpl.
  destruct (first_key pks) as [|pk0] eqn:Hpk0; [done|]. simpl.
  repeat (match goal with
          | |- context [resolve ?cols ?c] =>
              let H := fresh "Hres" in
              destruct (resolve cols c) eqn:H; simpl; [done|];
              apply resolve_inr in H
          end).
  case_decide; [|done]. simpl.
  intros [= <-]. exists pk0. done.
Qed.

(** X18: the bucket of the unchanged rows never holds a row with a NULL in
    a compared column: a row of [current_data] is kept as unchanged only
    when both its compared cells hold a value. *)
Theorem unchanged_rows_have_no_null current_data new_data pks b (r : Row) :
  buckets current_data new_data pks = inr b →
  r ∈ rows (b_unchanged b) →
  is_Some (r !! "value_col") ∧ is_Some (r !! "another_col").
Proof.
  intros (pk0 & _ & Hv & Ha & ->)%buckets_inr_unchanged.
  intros (j & -> & Hg & _)%elem_of_bucket_rows.
  apply unchanged_cond_true in Hg as (_ & [Hnv Hsv] & [Hna Hsa]).
  rewrite !project_lookup by done.
  by rewrite <- Hsv, <- Hsa.
Qed.

Lemma unchanged_rows_have_no_null_witness :
  is_Some (sample_row 4 (Some "d") (Some "y") (Some "old") !! "value_col") ∧
  is_Some (sample_row 4 (Some "d") (Some "y") (Some "old") !! "another_col").
Proof.
  apply (unchanged_rows_have_no_null sample_current sample_new ["id"]
           (mkBuckets
              (mkDF schema [sample_row 2 (Some "B") (Some "x") (Some "new")])
              (mkDF schema [sample_row 3 (Some "c") (Some "x") (Some "new")])
              (mkDF schema [sample_row 4 (Some "d") (Some "y") (Some "old")])));
    [by vm_compute | by_compute].
Defined.

(** ** Two calls in a row *)



